(** * The voice-engine front end: formatting helpers and workflow controller

    A shallow embedding of the TypeScript sources:
    - [lib/format]: [formatDuration], [formatFileSize];
    - [lib/api]: [checkHealth], [uploadAudio], [getDownloadUrl];
    - [components/voice-engine]: the [VoiceEngine] component, its handlers,
      its effects, what its view offers in each state and what it derives
      from the state ([currentStep], [getStatusText], the panels, the
      banners);
    - [components/step-indicator]: what [StepIndicator] shows of each step;
    - [components/upload-zone], [components/glow-button]: when the callbacks
      passed to them can fire, and the size shown for the selected file. *)

From Stdlib Require Import ZArith NArith QArith Qabs Qround String Ascii Lia.
From stdpp Require Import base decidable option list.

Local Open Scope N_scope.

(** ** JavaScript strings and numbers *)

(** A JavaScript string is a sequence of UTF-16 code units. *)
Abbreviation JSString := (list N).

(** A string literal of the source (all of them are ASCII). *)
Definition js (s : string) : JSString :=
  (fun a => N_of_ascii a) <$> list_ascii_of_string s.

(** [!!s] on a string: the empty string is the only falsy one. *)
Definition truthy (s : JSString) : bool :=
  match s with [] => false | _ => true end.

(** White space and line terminators, the code units that
    [String.prototype.trim] strips. *)
Definition isWhiteSpace (c : N) : bool :=
  (9 <=? c) && (c <=? 13) || (c =? 32) || (c =? 160) || (c =? 5760)
  || (8192 <=? c) && (c <=? 8202) || (c =? 8232) || (c =? 8233)
  || (c =? 8239) || (c =? 8287) || (c =? 12288) || (c =? 65279).

Fixpoint trimStart (s : JSString) : JSString :=
  match s with
  | c :: s' => if isWhiteSpace c then trimStart s' else s
  | [] => []
  end.

Definition trimEnd (s : JSString) : JSString := reverse (trimStart (reverse s)).

Definition trim (s : JSString) : JSString := trimEnd (trimStart s).

(** [s.endsWith(c)] for a one-unit string [c]. *)
Definition endsWith (s : JSString) (c : N) : bool :=
  match last s with Some d => d =? c | None => false end.

(** [s.padStart(maxLength, fill)] for a one-unit [fill]. *)
Definition padStart (maxLength : nat) (fill : N) (s : JSString) : JSString :=
  replicate (maxLength - length s) fill ++ s.

(** Decimal digits of a natural number, most significant first.  The fuel is
    the bit length of the number, which bounds its number of digits. *)
Fixpoint digitsFuel (fuel : nat) (n : N) : JSString :=
  match fuel with
  | O => [48 + n mod 10]
  | S fuel' =>
      if n <? 10 then [48 + n] else digitsFuel fuel' (n / 10) ++ [48 + n mod 10]
  end.

(** [String(n)] for an integer [n] with [0 <= n < 10^21]. *)
Definition ToStringN (n : N) : JSString := digitsFuel (N.to_nat (N.log2 n)) n.

(** [String(z)] for an integer [z] of magnitude below [10^21]. *)
Definition ToStringZ (z : Z) : JSString :=
  match z with
  | Zneg p => js "-" ++ ToStringN (Npos p)
  | _ => ToStringN (Z.to_N z)
  end.

(** [x.toFixed(fractionDigits)] for a number of magnitude below [10^21]:
    [n] is the integer for which [n / 10^f] is closest to [x], the larger one
    on a tie; its digits are padded with zeros to [f + 1] places and the
    point goes before the last [f]. *)
Definition toFixed (x : Q) (fractionDigits : nat) : JSString :=
  let s := if Qlt_le_dec x 0 then js "-" else [] in
  let x := Qabs x in
  let n := Z.to_N (Qfloor (x * inject_Z (10 ^ Z.of_nat fractionDigits) + (1 # 2))) in
  let m := ToStringN n in
  match fractionDigits with
  | O => s ++ m
  | S _ =>
      let m := padStart (S fractionDigits) 48 m in
      let k := length m in
      s ++ take (k - fractionDigits) m ++ js "." ++ drop (k - fractionDigits) m
  end.

(** [Number.MAX_SAFE_INTEGER]: up to here every integer is a binary64 value,
    and its quotient by a power of two is exact. *)
Definition MAX_SAFE_INTEGER : N := 2 ^ 53 - 1.

(** ** lib/format *)

(** [number] is binary64 in the source; here it is a rational.  The two agree
    where the values involved are exactly representable: [seconds / 60] is
    only used through its floor. *)
Definition formatDuration (seconds : Q) : JSString :=
  let mins := Qfloor (seconds / inject_Z 60) in
  let secs := (seconds - inject_Z mins * inject_Z 60)%Q in
  padStart 2 48 (ToStringZ mins) ++ js ":" ++ padStart 5 48 (toFixed secs 2) ++ js "s".

(** [bytes] is a byte count, a non-negative integer. *)
Definition formatFileSize (bytes : N) : JSString :=
  if bytes <? 1024 then ToStringN bytes ++ js " B"
  else if bytes <? 1024 * 1024 then toFixed (Z.of_N bytes # 1024) 1 ++ js " KB"
  else toFixed (Z.of_N bytes # 1024 * 1024) 1 ++ js " MB".

(** ** lib/api: what the backend sends *)

(** Payloads that the code types have the shapes of the protocol: the
    interfaces that [lib/api] declares and, for the server-sent [error]
    event, an object with an optional message.  A body or an event that does
    not parse is the malformed input the code provides for.  The body of a
    response that is not ok is untyped in the code, and any JSON value
    here. *)

Record UploadAudioResponse := {
  task_id : JSString;
  filename : JSString;
  duration : Q;
  duration_formatted : JSString;
  sample_rate : Q;
  channels : Q;
  frequency_range : JSString;
  quality_score : Q }.

Record ProgressEvent := {
  pe_status : JSString;
  pe_progress : Q;
  pe_stage : JSString }.

Record CompleteEvent := {
  ce_task_id : JSString;
  ce_duration_formatted : JSString;
  ce_sample_rate : Q;
  ce_file_size_bytes : Q }.

Record HealthResponse := {
  hr_status : JSString;
  model_loaded : bool;
  model_loading : bool;
  model_status : JSString;
  model_error : option JSString;
  device : option JSString }.

(** The payload of a server-sent [error] event, once parsed: an object whose
    one property of interest, [error], is a string, or is [None] when absent
    or null. *)
Record ErrorPayload := { payload_error : option JSString }.

(** A JSON value, as [res.json()] resolves to.  A number is given by what
    [String] makes of it, the one thing that is ever done with it; the
    members of an object come in the order of the text, where a later member
    replaces an earlier one of the same name. *)
#[warnings="-register-all"] Inductive JSON :=
| JNull
| JBool (b : bool)
| JNumber (shown : JSString)
| JString (s : JSString)
| JArray (items : list JSON)
| JObject (members : list (JSString * JSON)).

(** [items.join(sep)] on strings, for a one-unit [sep]. *)
Fixpoint joinWith (sep : N) (items : list JSString) : JSString :=
  match items with
  | [] => []
  | [item] => item
  | item :: rest => item ++ sep :: joinWith sep rest
  end.

(** [o[key]] on an object that [JSON.parse] has made: the last member of
    that name, [None] ([undefined]) when there is none. *)
Fixpoint getMember (key : JSString) (members : list (JSString * JSON)) : option JSON :=
  match members with
  | [] => None
  | (k, v) :: rest =>
      match getMember key rest with
      | Some v' => Some v'
      | None => if bool_decide (k = key) then Some v else None
      end
  end.

(** [String(v)], which is what [new Error(v)] makes its message of.  An
    array is its items joined by commas, a [null] among them counting as the
    empty string.  An object is "[object Object]", unless it has a member
    named [toString]: that one hides [Object.prototype.toString], is not a
    function, and the conversion throws a [TypeError], which is [None]
    here. *)
Fixpoint ToStringJSON (v : JSON) : option JSString :=
  match v with
  | JNull => Some (js "null")
  | JBool b => Some (if b then js "true" else js "false")
  | JNumber shown => Some shown
  | JString s => Some s
  | JArray items =>
      joinWith 44 <$>
        (fix each (items : list JSON) : option (list JSString) :=
           match items with
           | [] => Some []
           | item :: rest =>
               match match item with
                     | JNull => Some []
                     | _ => ToStringJSON item
                     end, each rest with
               | Some shown, Some others => Some (shown :: others)
               | _, _ => None
               end
           end) items
  | JObject members =>
      match getMember (js "toString") members with
      | Some _ => None
      | None => Some (js "[object Object]")
      end
  end.

(** What is thrown and caught: an [Error] with its message, or something
    that is not an [Error]. *)
Inductive Thrown :=
| ErrorInstance (message : JSString)
| OtherValue.

Inductive Result (A : Type) :=
| Returns (a : A)
| Throws (e : Thrown).
Arguments Returns {A} a.
Arguments Throws {A} e.

(** [body.detail]: on [null] a [TypeError] is thrown, with message
    [typeError]; on any other value that is not an object, and on an object
    without such a member, the result is [undefined], [None]. *)
Definition readDetail (typeError : JSString) (body : JSON) : Result (option JSON) :=
  match body with
  | JNull => Throws (ErrorInstance typeError)
  | JObject members => Returns (getMember (js "detail") members)
  | _ => Returns None
  end.

(** A response to [POST /api/upload-audio] as [uploadAudio] looks at it:
    [res.ok], [res.status], and what [res.json()] settles to; with a response
    that is not ok comes [typeError], the message this engine gives the
    [TypeError] that making the [Error] of such a body throws, if it throws
    one: on reading a property of [null], or on converting to a string an
    object with a member named [toString]. *)
Inductive UploadResponse :=
| UploadOk (json : Result UploadAudioResponse)
    (* res.ok; [Throws]: the body is not JSON *)
| UploadNotOk (status : N) (json : option JSON) (typeError : JSString).
    (* !res.ok; [None]: the body is not JSON *)

Inductive Fetched (R : Type) :=
| Rejected (e : Thrown)      (* fetch itself fails: no response *)
| Resolved (res : R).
Arguments Rejected {R} e.
Arguments Resolved {R} res.

(** A response to [GET /api/health]. *)
Record HealthHttp := { health_ok : bool; health_json : Result HealthResponse }.

Definition checkHealth (f : Fetched HealthHttp) : Result HealthResponse :=
  match f with
  | Rejected e => Throws e
  | Resolved res =>
      if negb (health_ok res) then Throws (ErrorInstance (js "API unreachable"))
      else health_json res
  end.

Definition uploadAudio (f : Fetched UploadResponse) : Result UploadAudioResponse :=
  match f with
  | Rejected e => Throws e
  | Resolved (UploadNotOk status json typeError) =>
      let body := default (JObject []) json in
      match readDetail typeError body with
      | Returns detail =>
          Throws (ErrorInstance
            match detail with
            | None | Some JNull => js "Upload failed (" ++ ToStringN status ++ js ")"
            | Some message => default typeError (ToStringJSON message)
            end)
      | Throws e => Throws e
      end
  | Resolved (UploadOk json) => json
  end.

(** ** components/voice-engine: the state of the component *)

Inductive EngineState :=
| Idle
| AudioUploaded
| Processing
| Processed
| ScriptUploaded
| Generating
| Complete.

#[global] Instance EngineState_eq_dec : EqDecision EngineState.
Proof. solve_decision. Defined.

Record File := { file_name : JSString; file_size : N }.

(** An [EventSource] the component has constructed: the query it was opened
    with, and whether [close()] has been called on it. *)
Record EventSource := {
  es_task_id : JSString;
  es_text : JSString;
  es_closed : bool }.

(** A pending [setTimeout(() => setState(s), ms)]. *)
Record Timer := { timer_ms : N; timer_state : EngineState }.

(** The health poll loop: awaiting [checkHealth()], asleep between two
    queries, or returned. *)
Inductive Poller :=
| AwaitingHealth
| Sleeping (ms : N)
| Stopped.

(** The component: its [useState] cells in source order, its ref, and what it
    has started in the browser and not heard back from.  [sources] holds every
    [EventSource] ever constructed; an index into it is the object's
    identity. *)
Record World := mkWorld {
  state : EngineState;
  audioFile : option File;
  scriptText : JSString;
  progress : Q;
  generationStage : JSString;
  isPlaying : bool;
  error : option JSString;
  modelReady : bool;
  modelLoading : bool;
  modelStatus : JSString;
  taskId : option JSString;
  audioMetadata : option UploadAudioResponse;
  outputMetadata : option CompleteEvent;
  eventSourceRef : option nat;
  sources : list EventSource;
  timers : list Timer;
  upload : option File;
  poller : Poller }.

Definition Action := World -> World.

(** [a >> b]: do [a], then [b]. *)
Notation "a >> b" := (fun w : World => b (a w))
  (at level 62, right associativity, only parsing).

Definition setState (v : EngineState) : Action :=
  fun '(mkWorld _ af st pr gs ip er mr ml ms ti am om ref so tm up po) =>
    mkWorld v af st pr gs ip er mr ml ms ti am om ref so tm up po.
Definition setAudioFile (v : option File) : Action :=
  fun '(mkWorld s _ st pr gs ip er mr ml ms ti am om ref so tm up po) =>
    mkWorld s v st pr gs ip er mr ml ms ti am om ref so tm up po.
Definition setScriptText (v : JSString) : Action :=
  fun '(mkWorld s af _ pr gs ip er mr ml ms ti am om ref so tm up po) =>
    mkWorld s af v pr gs ip er mr ml ms ti am om ref so tm up po.
Definition setProgress (v : Q) : Action :=
  fun '(mkWorld s af st _ gs ip er mr ml ms ti am om ref so tm up po) =>
    mkWorld s af st v gs ip er mr ml ms ti am om ref so tm up po.
Definition setGenerationStage (v : JSString) : Action :=
  fun '(mkWorld s af st pr _ ip er mr ml ms ti am om ref so tm up po) =>
    mkWorld s af st pr v ip er mr ml ms ti am om ref so tm up po.
Definition setIsPlaying (v : bool) : Action :=
  fun '(mkWorld s af st pr gs _ er mr ml ms ti am om ref so tm up po) =>
    mkWorld s af st pr gs v er mr ml ms ti am om ref so tm up po.
Definition setError (v : option JSString) : Action :=
  fun '(mkWorld s af st pr gs ip _ mr ml ms ti am om ref so tm up po) =>
    mkWorld s af st pr gs ip v mr ml ms ti am om ref so tm up po.
Definition setModelReady (v : bool) : Action :=
  fun '(mkWorld s af st pr gs ip er _ ml ms ti am om ref so tm up po) =>
    mkWorld s af st pr gs ip er v ml ms ti am om ref so tm up po.
Definition setModelLoading (v : bool) : Action :=
  fun '(mkWorld s af st pr gs ip er mr _ ms ti am om ref so tm up po) =>
    mkWorld s af st pr gs ip er mr v ms ti am om ref so tm up po.
Definition setModelStatus (v : JSString) : Action :=
  fun '(mkWorld s af st pr gs ip er mr ml _ ti am om ref so tm up po) =>
    mkWorld s af st pr gs ip er mr ml v ti am om ref so tm up po.
Definition setTaskId (v : option JSString) : Action :=
  fun '(mkWorld s af st pr gs ip er mr ml ms _ am om ref so tm up po) =>
    mkWorld s af st pr gs ip er mr ml ms v am om ref so tm up po.
Definition setAudioMetadata (v : option UploadAudioResponse) : Action :=
  fun '(mkWorld s af st pr gs ip er mr ml ms ti _ om ref so tm up po) =>
    mkWorld s af st pr gs ip er mr ml ms ti v om ref so tm up po.
Definition setOutputMetadata (v : option CompleteEvent) : Action :=
  fun '(mkWorld s af st pr gs ip er mr ml ms ti am _ ref so tm up po) =>
    mkWorld s af st pr gs ip er mr ml ms ti am v ref so tm up po.
Definition setEventSourceRef (v : option nat) : Action :=
  fun '(mkWorld s af st pr gs ip er mr ml ms ti am om _ so tm up po) =>
    mkWorld s af st pr gs ip er mr ml ms ti am om v so tm up po.
Definition setSources (v : list EventSource) : Action :=
  fun '(mkWorld s af st pr gs ip er mr ml ms ti am om ref _ tm up po) =>
    mkWorld s af st pr gs ip er mr ml ms ti am om ref v tm up po.
Definition setTimers (v : list Timer) : Action :=
  fun '(mkWorld s af st pr gs ip er mr ml ms ti am om ref so _ up po) =>
    mkWorld s af st pr gs ip er mr ml ms ti am om ref so v up po.
Definition setUpload (v : option File) : Action :=
  fun '(mkWorld s af st pr gs ip er mr ml ms ti am om ref so tm _ po) =>
    mkWorld s af st pr gs ip er mr ml ms ti am om ref so tm v po.
Definition setPoller (v : Poller) : Action :=
  fun '(mkWorld s af st pr gs ip er mr ml ms ti am om ref so tm up _) =>
    mkWorld s af st pr gs ip er mr ml ms ti am om ref so tm up v.

Definition skip : Action := fun w => w.

(** [setTimeout(() => setState(s), ms)] *)
Definition setTimeout (s : EngineState) (ms : N) : Action := fun w =>
  setTimers (timers w ++ [{| timer_ms := ms; timer_state := s |}]) w.

(** [es.close()] on the source of index [i] *)
Definition close (es : EventSource) : EventSource :=
  {| es_task_id := es_task_id es; es_text := es_text es; es_closed := true |}.

Definition closeSource (i : nat) : Action := fun w =>
  setSources (alter close i (sources w)) w.

(** [es = new EventSource(getGenerateUrl({task_id, text}));
     eventSourceRef.current = es] *)
Definition newEventSource (task text : JSString) : Action := fun w =>
  (setSources (sources w ++ [{| es_task_id := task; es_text := text; es_closed := false |}])
   >> setEventSourceRef (Some (length (sources w)))) w.

(** The sources on which [close()] has not been called, by index. *)
Fixpoint openFrom (k : nat) (l : list EventSource) : list nat :=
  match l with
  | [] => []
  | es :: l' => (if es_closed es then [] else [k]) ++ openFrom (S k) l'
  end.

Definition openSources (w : World) : list nat := openFrom 0 (sources w).

Definition isOpen (i : nat) (w : World) : bool :=
  match sources w !! i with
  | Some es => negb (es_closed es)
  | None => false
  end.

(** ** components/voice-engine: the handlers *)

Definition handleAudioSelect (file : File) : Action :=
  setAudioFile (Some file) >> setState AudioUploaded >> setError None.

Definition handleAudioClear : Action :=
  setAudioFile None >> setState Idle.

(** [handleProcessAudio] up to [await uploadAudio(audioFile)]. *)
Definition handleProcessAudio : Action := fun w =>
  match audioFile w with
  | None => w
  | Some file =>
      (setState Processing >> setProgress 0 >> setError None
       >> setUpload (Some file)) w
  end.

(** [handleProcessAudio] from the [await] on: the [try] body when
    [uploadAudio] returns, the [catch] when it throws. *)
Definition handleProcessAudio_resume (r : Result UploadAudioResponse) : Action :=
  setUpload None >>
  match r with
  | Returns data =>
      setTaskId (Some (task_id data)) >> setAudioMetadata (Some data)
      >> setProgress 100 >> setTimeout Processed 400
  | Throws err =>
      setError (Some (match err with
                      | ErrorInstance message => message
                      | OtherValue => js "Upload failed"
                      end))
      >> setState AudioUploaded
  end.

Definition handleGenerateVoice : Action := fun w =>
  match taskId w with
  | Some task =>
      if truthy task && truthy (trim (scriptText w)) then
        (setState Generating >> setProgress 0
         >> setGenerationStage (js "Initializing") >> setError None
         >> newEventSource task (trim (scriptText w))) w
      else w
  | None => w
  end.

(** The three listeners [handleGenerateVoice] adds to the source it has just
    opened; [i] is that source.  [parsed] is [JSON.parse(e.data)], [None] when
    it throws: the listener then ends there, before any update. *)
Definition onProgress (parsed : option ProgressEvent) : Action :=
  match parsed with
  | Some data =>
      setProgress (pe_progress data)
      >> setGenerationStage (if truthy (pe_stage data) then pe_stage data else js "")
  | None => skip
  end.

Definition onComplete (i : nat) (parsed : option CompleteEvent) : Action :=
  match parsed with
  | Some data =>
      setOutputMetadata (Some data) >> setProgress 100
      >> closeSource i >> setEventSourceRef None >> setTimeout Complete 600
  | None => skip
  end.

(** An event of type [error] on the source. *)
Inductive ErrorEvent :=
| PlainEvent                               (* not a [MessageEvent]: the connection failed *)
| EmptyMessage                             (* a [MessageEvent] whose [data] is empty *)
| Message (parsed : option ErrorPayload).  (* [JSON.parse(e.data)]; [None]: it throws *)

Definition errorMessage (e : ErrorEvent) : JSString :=
  match e with
  | Message (Some data) =>
      match payload_error data with
      | Some m => if truthy m then m else js "Generation failed"
      | None => js "Generation failed"
      end
  | Message None => js "Generation failed"
  | PlainEvent | EmptyMessage => js "Connection to server lost"
  end.

Definition onError (i : nat) (e : ErrorEvent) : Action :=
  setError (Some (errorMessage e))
  >> closeSource i >> setEventSourceRef None >> setState ScriptUploaded.

(** Builds a link and clicks it; nothing of the component changes. *)
Definition handleDownload : Action := skip.

Definition handleReset : Action := fun w =>
  ((match eventSourceRef w with
    | Some i => closeSource i >> setEventSourceRef None
    | None => skip
    end)
   >> setState Idle >> setAudioFile None >> setScriptText (js "")
   >> setProgress 0 >> setGenerationStage (js "") >> setIsPlaying false
   >> setError None >> setTaskId None >> setAudioMetadata None
   >> setOutputMetadata None) w.

Definition togglePlayback : Action := fun w =>
  setIsPlaying (negb (isPlaying w)) w.

(** The reads of [scriptText] and [state] after [setScriptText] are those of
    the render the callback closed over: [w], not the updated world. *)
Definition insertTag (tag : JSString) : Action := fun w =>
  let prev := scriptText w in
  let needsSpace :=
    (0 <? length prev)%nat && negb (endsWith prev 32) && negb (endsWith prev 10) in
  (setScriptText (prev ++ (if needsSpace then js " " else js "") ++ tag ++ js " ")
   >> (if truthy (trim (scriptText w)) && bool_decide (state w = Processed)
       then setState ScriptUploaded else skip)) w.

(** [useEffect(..., [scriptText, state])]: track script text changes to
    toggle the state. *)
Definition scriptEffect : Action := fun w =>
  if bool_decide (state w = Processed) && truthy (trim (scriptText w))
  then setState ScriptUploaded w
  else if bool_decide (state w = ScriptUploaded) && negb (truthy (trim (scriptText w)))
  then setState Processed w
  else w.

(** One turn of the loop of [poll], from the moment [checkHealth()] settles
    to the next [await] or [return]. *)
Definition pollIteration (f : Fetched HealthHttp) : Action :=
  match checkHealth f with
  | Returns h =>
      setModelStatus (model_status h) >>
      (if model_loaded h then
         setModelReady true >> setModelLoading false >> setPoller Stopped
       else if bool_decide (model_status h = js "failed") then
         setModelLoading false
         >> setError (Some (js "Model failed to load: "
                            ++ default (js "unknown error") (model_error h)))
         >> setPoller Stopped
       else
         setModelLoading (model_loading h) >> setPoller (Sleeping 3000))
  | Throws _ =>
      setModelLoading true >> setModelStatus (js "connecting")
      >> setPoller (Sleeping 3000)
  end.

(** The 3000 ms are over: [while (!cancelled)] goes round. *)
Definition pollWake : Action := setPoller AwaitingHealth.

(** ** The component over time *)

Inductive SpeakerTag := S1 | S2.

Definition tagText (t : SpeakerTag) : JSString :=
  match t with S1 => js "[S1]" | S2 => js "[S2]" end.

(** What can happen to the mounted component: the user acts on what is
    rendered, a request settles, a timeout fires, a source delivers an
    event. *)
Inductive Event :=
| SelectFile (file : File)         (* UploadZone: drop or file input *)
| RemoveFile                       (* UploadZone: Remove *)
| ClickProcess                     (* Process Sample Audio *)
| UploadSettled (f : Fetched UploadResponse)
| TimerFires (i : nat)             (* the pending timeout of index [i] fires *)
| ChangeScript (value : JSString)  (* Textarea onChange *)
| ClickTag (t : SpeakerTag)        (* the [S1] and [S2] buttons *)
| ClickGenerate                    (* Generate Voice *)
| SourceProgress (i : nat) (parsed : option ProgressEvent)
| SourceComplete (i : nat) (parsed : option CompleteEvent)
| SourceError (i : nat) (e : ErrorEvent)
| DismissError
| ClickDownload
| ClickPlayback
| ClickReset                       (* Start Over *)
| HealthSettled (f : Fetched HealthHttp)
| PollTimeout.

Definition inState (l : list EngineState) (w : World) : bool :=
  existsb (fun s => bool_decide (state w = s)) l.

Definition isSome {A} (o : option A) : bool :=
  match o with Some _ => true | None => false end.

(** Whether the event can occur: the control is rendered and enabled, the
    request is in flight, the timeout is pending, the source is not closed. *)
Definition offered (e : Event) (w : World) : bool :=
  match e with
  | SelectFile _ => inState [Idle; AudioUploaded] w
  | RemoveFile | ClickProcess =>
      inState [Idle; AudioUploaded] w && isSome (audioFile w)
  | UploadSettled _ => isSome (upload w)
  | TimerFires i => isSome (timers w !! i)
  | ChangeScript _ | ClickTag _ => inState [Processed; ScriptUploaded] w
  | ClickGenerate =>
      inState [Processed; ScriptUploaded] w
      && truthy (trim (scriptText w)) && modelReady w
  | SourceProgress i _ | SourceComplete i _ | SourceError i _ => isOpen i w
  | DismissError => truthy (default (js "") (error w))
  | ClickDownload | ClickPlayback | ClickReset => inState [Complete] w
  | HealthSettled _ => match poller w with AwaitingHealth => true | _ => false end
  | PollTimeout => match poller w with Sleeping _ => true | _ => false end
  end.

Definition handler (e : Event) : Action :=
  match e with
  | SelectFile file => handleAudioSelect file
  | RemoveFile => handleAudioClear
  | ClickProcess => handleProcessAudio
  | UploadSettled f => handleProcessAudio_resume (uploadAudio f)
  | TimerFires i => fun w =>
      match timers w !! i with
      | Some t => (setTimers (delete i (timers w)) >> setState (timer_state t)) w
      | None => w
      end
  | ChangeScript value => setScriptText value
  | ClickTag t => insertTag (tagText t)
  | ClickGenerate => handleGenerateVoice
  | SourceProgress _ parsed => onProgress parsed
  | SourceComplete i parsed => onComplete i parsed
  | SourceError i e => onError i e
  | DismissError => setError None
  | ClickDownload => handleDownload
  | ClickPlayback => togglePlayback
  | ClickReset => handleReset
  | HealthSettled f => pollIteration f
  | PollTimeout => pollWake
  end.

(** An event that is offered runs its handler; React then renders and runs
    the effect on [scriptText] and [state]. *)
Definition step (e : Event) (w : World) : World :=
  if offered e w then scriptEffect (handler e w) else w.

Definition run (events : list Event) (w : World) : World :=
  foldl (fun w e => step e w) w events.

(** The component as mounted: the initial values of the [useState] cells, and
    the poll loop started by its effect. *)
Definition mounted : World := {|
  state := Idle;
  audioFile := None;
  scriptText := js "";
  progress := 0;
  generationStage := js "";
  isPlaying := false;
  error := None;
  modelReady := false;
  modelLoading := true;
  modelStatus := js "connecting";
  taskId := None;
  audioMetadata := None;
  outputMetadata := None;
  eventSourceRef := None;
  sources := [];
  timers := [];
  upload := None;
  poller := AwaitingHealth |}.

(** ** Inputs used in examples *)

Definition sample_wav : File := {| file_name := js "sample.wav"; file_size := 2345678 |}.

Definition abc123 : UploadAudioResponse := {|
  task_id := js "abc123";
  filename := js "sample.wav";
  duration := 1234 # 100;
  duration_formatted := js "00:12.34s";
  sample_rate := 44100;
  channels := 1;
  frequency_range := js "80Hz-8kHz";
  quality_score := 87 |}.

Definition finished : CompleteEvent := {|
  ce_task_id := js "abc123";
  ce_duration_formatted := js "00:12.34s";
  ce_sample_rate := 24000;
  ce_file_size_bytes := 2345678 |}.

Definition model_is_loaded : Fetched HealthHttp :=
  Resolved {| health_ok := true;
              health_json := Returns {| hr_status := js "ok"; model_loaded := true;
                                     model_loading := false; model_status := js "ready";
                                     model_error := None; device := Some (js "cpu") |} |}.

(** Select a file, process it, the upload succeeds. *)
Definition upload_succeeds : list Event :=
  [SelectFile sample_wav; ClickProcess; UploadSettled (Resolved (UploadOk (Returns abc123)))].

(** ... the 400 ms pass, the model is loaded, a script is typed, Generate is
    clicked. *)
Definition generation_starts : list Event :=
  upload_succeeds ++ [TimerFires 0; HealthSettled model_is_loaded;
                      ChangeScript (js "[S1] Hello"); ClickGenerate].

(** The message V8 gives the [TypeError] for [body.detail] on [null]; it
    stands in the responses below, of which only [null_body] uses it. *)
Definition v8_null_detail : JSString :=
  js "Cannot read properties of null (reading 'detail')".

(** A body with a message. *)
Definition unsupported_format : Fetched UploadResponse :=
  Resolved (UploadNotOk 400
              (Some (JObject [(js "detail", JString (js "Unsupported audio format"))]))
              v8_null_detail).

(** A body whose [detail] is a list of validation errors. *)
Definition field_required : Fetched UploadResponse :=
  Resolved (UploadNotOk 422
              (Some (JObject
                 [(js "detail",
                   JArray [JObject [(js "type", JString (js "missing"));
                                    (js "loc", JArray [JString (js "body");
                                                       JString (js "file")]);
                                    (js "msg", JString (js "Field required"))]])]))
              v8_null_detail).

(** A body that is [null]. *)
Definition null_body : Fetched UploadResponse :=
  Resolved (UploadNotOk 500 (Some JNull) v8_null_detail).

Definition still_downloading : Fetched HealthHttp :=
  Resolved {| health_ok := true;
              health_json := Returns {| hr_status := js "ok"; model_loaded := false;
                                     model_loading := true;
                                     model_status := js "downloading";
                                     model_error := None; device := None |} |}.

(** ** The invariant of the component *)

(** Nothing is under way: no upload, no timeout, no source. *)
Definition quiet (w : World) : Prop :=
  upload w = None /\ timers w = [] /\ eventSourceRef w = None /\ openSources w = [].

(** For each state, what is stored and what is under way. *)
Definition Inv (w : World) : Prop :=
  match state w with
  | Idle =>
      quiet w /\ audioFile w = None /\ taskId w = None /\ outputMetadata w = None
  | AudioUploaded =>
      quiet w /\ audioFile w <> None /\ taskId w = None /\ outputMetadata w = None
  | Processing =>
      eventSourceRef w = None /\ openSources w = [] /\ outputMetadata w = None
      /\ audioFile w <> None
      /\ ((upload w = audioFile w /\ timers w = [] /\ taskId w = None)
          \/ (upload w = None
              /\ timers w = [{| timer_ms := 400; timer_state := Processed |}]
              /\ taskId w <> None))
  | Processed | ScriptUploaded =>
      quiet w /\ taskId w <> None /\ outputMetadata w = None
  | Generating =>
      upload w = None /\ taskId w <> None /\ trim (scriptText w) <> []
      /\ ((exists i, eventSourceRef w = Some i /\ openSources w = [i]
                     /\ timers w = [] /\ outputMetadata w = None)
          \/ (eventSourceRef w = None /\ openSources w = []
              /\ timers w = [{| timer_ms := 600; timer_state := Complete |}]
              /\ outputMetadata w <> None))
  | Complete =>
      quiet w /\ taskId w <> None /\ outputMetadata w <> None
  end.

(** The states in which the upload is behind. *)
Definition postUpload (s : EngineState) : bool :=
  match s with
  | Processed | ScriptUploaded | Generating | Complete => true
  | _ => false
  end.

(** Between processed and script-uploaded, the state is the one the script
    text calls for. *)
Definition Derived (w : World) : Prop :=
  (state w = Processed -> trim (scriptText w) = [])
  /\ (state w = ScriptUploaded -> trim (scriptText w) <> []).

(** Some code unit of the string is not white space. *)
Definition notBlank (s : JSString) : bool :=
  existsb (fun c => negb (isWhiteSpace c)) s.

(** The outcomes of a health query after which the loop goes round again. *)
Definition goesOn (f : Fetched HealthHttp) : bool :=
  match checkHealth f with
  | Returns h =>
      negb (model_loaded h) && negb (bool_decide (model_status h = js "failed"))
  | Throws _ => true
  end.

(** One query and one sleep for each outcome. *)
Definition pollRounds (fs : list (Fetched HealthHttp)) : list Event :=
  concat ((fun f => [HealthSettled f; PollTimeout]) <$> fs).

(** * More of the component *)

(** ** The moves of the state *)

(** The moves that the handlers, the timeouts and the effect make between
    two different states. *)
Definition edge (s s' : EngineState) : bool :=
  match s, s' with
  | Idle, AudioUploaded
  | AudioUploaded, Idle
  | AudioUploaded, Processing
  | Processing, Processed
  | Processing, AudioUploaded
  | Processed, ScriptUploaded
  | ScriptUploaded, Processed
  | ScriptUploaded, Generating
  | Generating, Complete
  | Generating, ScriptUploaded
  | Complete, Idle => true
  | _, _ => false
  end.

(** ** What is stored with what *)

(** What the cells hold, state by state, beyond [Inv]: the task id is the one
    of the stored upload response; no source was ever constructed unless the
    model is ready; an open source was opened for the stored task id and the
    trimmed script as it stands; and for each state, whether a file is held,
    whether the script can have been touched, what the progress reads. *)
Definition Stored (w : World) : Prop :=
  taskId w = task_id <$> audioMetadata w
  /\ (sources w <> [] -> modelReady w = true)
  /\ (forall i, i ∈ openSources w ->
        exists es, sources w !! i = Some es
                   /\ taskId w = Some (es_task_id es)
                   /\ es_text es = trim (scriptText w))
  /\ match state w with
     | Idle =>
         audioFile w = None /\ scriptText w = js "" /\ isPlaying w = false
     | AudioUploaded =>
         audioFile w <> None /\ scriptText w = js "" /\ isPlaying w = false
     | Processing =>
         audioFile w <> None /\ scriptText w = js "" /\ isPlaying w = false
         /\ progress w = (if isSome (upload w) then 0 else 100)%Q
     | Processed | ScriptUploaded =>
         audioFile w <> None /\ isPlaying w = false
     | Generating =>
         audioFile w <> None /\ isPlaying w = false
         /\ (timers w <> [] -> progress w = 100%Q)
     | Complete =>
         audioFile w <> None /\ progress w = 100%Q
     end.

(** What the poll loop leaves behind: it only ever sleeps 3000 ms; once the
    model is ready the loop has returned; once it has returned the model is
    not shown as loading, and if the model is not ready its status is
    failed. *)
Definition Readiness (w : World) : Prop :=
  (forall ms, poller w = Sleeping ms -> ms = 3000)
  /\ (modelReady w = true -> poller w = Stopped)
  /\ (poller w = Stopped -> modelLoading w = false)
  /\ (poller w = Stopped -> modelReady w = false -> modelStatus w = js "failed").

(** ** components/voice-engine: what the view derives *)

Definition STEPS : list JSString :=
  [js "Upload"; js "Process"; js "Script"; js "Generate"].

Definition currentStep (s : EngineState) : nat :=
  if bool_decide (s = Idle) || bool_decide (s = AudioUploaded) then 0
  else if bool_decide (s = Processing) then 1
  else if bool_decide (s = Processed) || bool_decide (s = ScriptUploaded) then 2
  else if bool_decide (s = Generating) then 3
  else 4.

Definition getStatusText (s : EngineState) : JSString :=
  match s with
  | Idle => js "AWAITING_INPUT"
  | AudioUploaded => js "SAMPLE_LOADED"
  | Processing => js "ANALYZING"
  | Processed => js "SIGNATURE_READY"
  | ScriptUploaded => js "SCRIPT_LOADED"
  | Generating => js "SYNTHESIZING"
  | Complete => js "OUTPUT_READY"
  end.

(** The five panels of the content area, in source order, and the condition
    under which each is rendered. *)
Inductive Panel :=
| UploadPanel
| ProcessingPanel
| ScriptPanel
| GeneratingPanel
| CompletePanel.

Definition panels : list Panel :=
  [UploadPanel; ProcessingPanel; ScriptPanel; GeneratingPanel; CompletePanel].

Definition rendered (p : Panel) (s : EngineState) : bool :=
  match p with
  | UploadPanel => bool_decide (s = Idle) || bool_decide (s = AudioUploaded)
  | ProcessingPanel => bool_decide (s = Processing)
  | ScriptPanel => bool_decide (s = Processed) || bool_decide (s = ScriptUploaded)
  | GeneratingPanel => bool_decide (s = Generating)
  | CompletePanel => bool_decide (s = Complete)
  end.

(** The model loading banner is rendered. *)
Definition loadingBanner (w : World) : bool :=
  modelLoading w && negb (modelReady w).

(** The note "Waiting for model to finish loading" is rendered, above a
    Generate button that is disabled. *)
Definition waitingNote (w : World) : bool :=
  inState [Processed; ScriptUploaded] w && truthy (trim (scriptText w))
  && negb (modelReady w).

(** ** lib/api: the download *)

(** [API_URL] is fixed when the bundle is built; here it is an argument. *)
Definition getDownloadUrl (API_URL taskId : JSString) : JSString :=
  API_URL ++ js "/api/download/" ++ taskId.

(** The [a] element that [handleDownload] creates and clicks, if it does. *)
Record Anchor := { href : JSString; download : JSString }.

Definition downloadLink (API_URL : JSString) (w : World) : option Anchor :=
  match taskId w with
  | Some task =>
      if truthy task then
        Some {| href := getDownloadUrl API_URL task;
                download := js "voxsynth-" ++ task ++ js ".wav" |}
      else None
  | None => None
  end.

(** ** components/step-indicator *)

(** The circle of a step holds a check mark or the number of the step. *)
Inductive Circle :=
| CheckIcon
| Number (label : JSString).

(** The three looks of a circle: [i < currentStep], [i === currentStep],
    neither. *)
Inductive Tone := Done | Current | Ahead.

Record StepView := {
  sv_tone : Tone;
  sv_circle : Circle;
  sv_name : JSString;
  sv_lit : bool;                (* the name is highlighted *)
  sv_connector : option bool }. (* the line to the next step, and whether it
                                   is highlighted *)

Definition StepIndicator (steps : list JSString) (currentStep : nat) : list StepView :=
  imap (fun i step =>
          {| sv_tone := if (i <? currentStep)%nat then Done
                        else if (i =? currentStep)%nat then Current else Ahead;
             sv_circle := if (i <? currentStep)%nat then CheckIcon
                          else Number (padStart 2 48 (ToStringN (N.of_nat (i + 1))));
             sv_name := step;
             sv_lit := (i <=? currentStep)%nat;
             sv_connector := if (i <? length steps - 1)%nat
                             then Some (i <? currentStep)%nat else None |})
       steps.

(** ** components/upload-zone *)

(** The size shown under the name of the selected file. *)
Definition sizeLabel (selectedFile : File) : JSString :=
  toFixed (Z.of_N (file_size selectedFile) # 1024) 1 ++ js " KB".

(** ** The generation that the output belongs to *)

(** In generating and in complete, the last source constructed is the one of
    this generation: opened for the task id that is stored and for the
    script as it stands, trimmed. *)
Definition Generated (w : World) : Prop :=
  match state w with
  | Generating | Complete =>
      exists es, last (sources w) = Some es
                 /\ taskId w = Some (es_task_id es)
                 /\ es_text es = trim (scriptText w)
  | _ => True
  end.

(** ** More inputs used in examples *)

Definition model_has_failed : Fetched HealthHttp :=
  Resolved {| health_ok := true;
              health_json := Returns {| hr_status := js "ok"; model_loaded := false;
                                     model_loading := false; model_status := js "failed";
                                     model_error := Some (js "out of memory");
                                     device := None |} |}.

(** An upload response whose task id is the empty string. *)
Definition unnamed_task : UploadAudioResponse := {|
  task_id := js "";
  filename := js "sample.wav";
  duration := 1234 # 100;
  duration_formatted := js "00:12.34s";
  sample_rate := 44100;
  channels := 1;
  frequency_range := js "80Hz-8kHz";
  quality_score := 87 |}.

(** ** components/voice-engine: unmounting, and the stage that is shown *)

(** The cleanup of the effect that runs on unmount: [close()] on the source
    in [eventSourceRef], if there is one. *)
Definition unmountCleanup : Action := fun w =>
  match eventSourceRef w with
  | Some i => closeSource i w
  | None => w
  end.

(** [generationStage || "Initializing"], the stage of the generating panel. *)
Definition stageShown (w : World) : JSString :=
  if truthy (generationStage w) then generationStage w else js "Initializing".

(** * Properties *)

(** ** Open sources *)

Lemma openFrom_ge k l j : j ∈ openFrom k l -> (k <= j)%nat.
Proof.
  revert k. induction l as [|es l IH]; intros k; simpl.
  - intros H. inversion H.
  - rewrite elem_of_app. intros [H|H].
    + destruct (es_closed es); [inversion H|].
      apply list_elem_of_singleton in H. lia.
    + apply IH in H. lia.
Qed.

Lemma openFrom_app k l l' :
  openFrom k (l ++ l') = openFrom k l ++ openFrom (k + length l) l'.
Proof.
  revert k. induction l as [|es l IH]; intros k; simpl.
  - by rewrite Nat.add_0_r.
  - rewrite IH, <- app_assoc. do 3 f_equal. lia.
Qed.

Lemma filter_all {A} (P : A -> Prop) `{forall x, Decision (P x)} (l : list A) :
  (forall x, x ∈ l -> P x) -> filter P l = l.
Proof.
  induction l as [|x l IH]; intros HP; [done|].
  rewrite filter_cons_True by (apply HP; left).
  f_equal. apply IH. intros y Hy. apply HP. by right.
Qed.

Lemma openFrom_close k i l :
  openFrom k (alter close i l) = filter (fun j => j <> (k + i)%nat) (openFrom k l).
Proof.
  revert k i. induction l as [|es l IH]; intros k i; [done|].
  destruct i as [|i]; simpl.
  - rewrite filter_app, Nat.add_0_r.
    assert (filter (fun j => j <> k) (openFrom (S k) l) = openFrom (S k) l) as ->.
    { apply filter_all. intros j Hj. apply openFrom_ge in Hj. lia. }
    destruct (es_closed es); simpl; [done|].
    rewrite filter_cons_False; [done|]. intros H. by apply H.
  - unfold alter in IH. rewrite filter_app, IH. f_equal.
    + destruct (es_closed es); simpl; [done|].
      rewrite filter_cons_True; [done|lia].
    + apply list_filter_iff. intros j. lia.
Qed.

Lemma openFrom_lookup k l i es :
  l !! i = Some es -> es_closed es = false -> (k + i)%nat ∈ openFrom k l.
Proof.
  revert k i. induction l as [|es' l IH]; intros k i; [done|].
  destruct i as [|i]; simpl.
  - intros [= ->] ->. rewrite Nat.add_0_r. apply elem_of_app. left. by left.
  - intros Hl Hc. apply elem_of_app. right.
    replace (k + S i)%nat with (S k + i)%nat by lia. by apply IH.
Qed.

Lemma openFrom_close_only i l :
  openFrom 0 l = [i] -> openFrom 0 (alter close i l) = [].
Proof.
  intros H. rewrite openFrom_close, H. simpl.
  rewrite filter_cons_False; [done|]. intros Hne. by apply Hne.
Qed.

Lemma isOpen_openSources i w : isOpen i w = true -> i ∈ openSources w.
Proof.
  unfold isOpen, openSources. destruct (sources w !! i) as [es|] eqn:Hl; [|done].
  intros Hc. apply (openFrom_lookup 0 _ _ _ Hl). by destruct (es_closed es).
Qed.

(** ** The invariant is kept *)

Ltac world w :=
  destruct w as [s af st pr gs ip er mr ml ms ti am om ref so tm up po].

Ltac unpack :=
  repeat match goal with
    | H : _ /\ _ |- _ => destruct H
    | H : exists _, _ |- _ => destruct H
    | H : _ \/ _ |- _ => destruct H
    end.

Ltac by_state s :=
  destruct s; simpl in *; try discriminate; unpack; subst; simpl in *;
  try discriminate.

Ltac conj :=
  repeat split; try done; try congruence; eauto using openFrom_close_only.

(** A source that delivers an event is open: it is the one the invariant
    knows about. *)
Ltac the_open_source H :=
  match goal with
  | H' : openFrom 0 _ = _ |- _ => rewrite H' in H
  end;
  first [ by inversion H | apply list_elem_of_singleton in H; subst ].

Ltac settle := first [ by conj | by (conj; left; conj) | by (conj; right; conj) ].

Lemma scriptEffect_Inv w : Inv w -> Inv (scriptEffect w).
Proof.
  world w. unfold scriptEffect, Inv. simpl.
  destruct s; simpl; try done; destruct (truthy _); simpl; done.
Qed.

Lemma handler_Inv e w : offered e w = true -> Inv w -> Inv (handler e w).
Proof.
  intros Hoff HI. world w. unfold Inv, quiet, openSources, isOpen in *.
  destruct e; simpl in *.
  - by_state s; settle.
  - by_state s; settle.
  - unfold handleProcessAudio. simpl. destruct af as [file|]; [|by_state s; done].
    by_state s; settle.
  - destruct (uploadAudio f) as [data|err]; by_state s; settle.
  - destruct (tm !! i) as [t|] eqn:Ht; [|done].
    by_state s; destruct i; simpl in *; simplify_eq; simpl; settle.
  - by_state s; settle.
  - unfold insertTag; simpl. destruct (truthy (trim st) && _); by_state s; settle.
  - apply andb_prop in Hoff as [Hoff Hmr]. apply andb_prop in Hoff as [Hoff Htr].
    unfold handleGenerateVoice. simpl. destruct ti as [task|]; [|by by_state s].
    rewrite Htr, andb_true_r. destruct (truthy task); [|done]. simpl.
    assert (trim st <> []) by (by destruct (trim st)).
    by_state s; rewrite openFrom_app; simpl;
      match goal with H : openFrom 0 so = [] |- _ => rewrite H end;
      conj; left; eexists; conj.
  - apply isOpen_openSources in Hoff. unfold openSources in Hoff.
    destruct parsed; by_state s; the_open_source Hoff; settle.
  - apply isOpen_openSources in Hoff. unfold openSources in Hoff.
    destruct parsed; [|by_state s; the_open_source Hoff; settle].
    by_state s; the_open_source Hoff; conj; right; conj.
  - apply isOpen_openSources in Hoff. unfold openSources in Hoff.
    by_state s; the_open_source Hoff; conj.
  - by_state s; settle.
  - by_state s; settle.
  - by_state s; settle.
  - unfold handleReset. by_state s; settle.
  - unfold pollIteration. clear Hoff.
    destruct (checkHealth f) as [h|]; simpl;
      [destruct (model_loaded h); [|destruct (bool_decide _)]|];
      by_state s; settle.
  - clear Hoff. by_state s; settle.
Qed.

Lemma step_Inv e w : Inv w -> Inv (step e w).
Proof.
  intros HI. unfold step. destruct (offered e w) eqn:Hoff; [|done].
  by apply scriptEffect_Inv, handler_Inv.
Qed.

Lemma mounted_Inv : Inv mounted.
Proof. unfold Inv, quiet. by simpl. Qed.

Lemma run_Inv evs w : Inv w -> Inv (run evs w).
Proof.
  revert w. induction evs as [|e evs IH]; intros w HI; [done|].
  simpl. by apply IH, step_Inv.
Qed.

(** The invariant holds in every state the component can be in. *)
Lemma reachable_Inv evs : Inv (run evs mounted).
Proof. apply run_Inv, mounted_Inv. Qed.

(** ** The effect on the script *)

(** The effect changes [state] and nothing else. *)
Lemma scriptEffect_setState w : exists s', scriptEffect w = setState s' w.
Proof.
  unfold scriptEffect. destruct (_ && _); [by eexists|].
  destruct (_ && _); [by eexists|]. exists (state w). by destruct w.
Qed.

Lemma scriptEffect_keeps {A} (field : World -> A) :
  (forall s' w, field (setState s' w) = field w) ->
  forall w, field (scriptEffect w) = field w.
Proof. intros Hf w. by destruct (scriptEffect_setState w) as [s' ->]. Qed.

Ltac effect_keeps := apply scriptEffect_keeps; by intros ? [].

Lemma scriptEffect_poller w : poller (scriptEffect w) = poller w.
Proof. revert w. effect_keeps. Qed.

Lemma scriptEffect_modelReady w : modelReady (scriptEffect w) = modelReady w.
Proof. revert w. effect_keeps. Qed.

Lemma scriptEffect_modelLoading w : modelLoading (scriptEffect w) = modelLoading w.
Proof. revert w. effect_keeps. Qed.

Lemma scriptEffect_modelStatus w : modelStatus (scriptEffect w) = modelStatus w.
Proof. revert w. effect_keeps. Qed.

Lemma scriptEffect_error w : error (scriptEffect w) = error w.
Proof. revert w. effect_keeps. Qed.

Lemma scriptEffect_sources w : sources (scriptEffect w) = sources w.
Proof. revert w. effect_keeps. Qed.

Lemma scriptEffect_scriptText w : scriptText (scriptEffect w) = scriptText w.
Proof. revert w. effect_keeps. Qed.

Create Rewrite HintDb effect.
#[local] Hint Rewrite scriptEffect_poller scriptEffect_modelReady
  scriptEffect_modelLoading scriptEffect_modelStatus scriptEffect_error
  scriptEffect_sources scriptEffect_scriptText : effect.

(** Run once more, the effect finds nothing to do: one run after each event
    is all React's re-running amounts to. *)
Lemma scriptEffect_idempotent w : scriptEffect (scriptEffect w) = scriptEffect w.
Proof.
  world w. unfold scriptEffect. simpl.
  destruct s; simpl; try done; destruct (truthy (trim st)) eqn:Ht; simpl;
    by rewrite ?Ht.
Qed.

(** ** Stored data and state *)

(** C1, as amended.  In every state the component can reach, [taskId] is null
    in idle and audio-uploaded and non-null in processed, script-uploaded,
    generating and complete; in processing it is null while the upload is in
    flight and non-null once the response has arrived, during the 400 ms
    that precede the switch to processed. *)
Theorem taskId_by_state (events : list Event) :
  let w := run events mounted in
  match state w with
  | Idle | AudioUploaded => taskId w = None
  | Processing =>
      (taskId w <> None <-> upload w = None)
      /\ (taskId w <> None <->
          timers w = [{| timer_ms := 400; timer_state := Processed |}])
  | Processed | ScriptUploaded | Generating | Complete => taskId w <> None
  end.
Proof.
  intros w. pose proof (reachable_Inv events) as HI. fold w in HI.
  unfold Inv, quiet in HI. destruct (state w); unpack; try done.
  split; (split; [congruence|]); intros Ht; rewrite Ht in *; congruence.
Qed.

(** C1, as stated, fails: the upload has succeeded, the state is still
    processing, and [taskId] is already set. *)
Lemma taskId_set_before_processed :
  let w := run upload_succeeds mounted in
  state w = Processing /\ taskId w = Some (js "abc123")
  /\ ~ (taskId w <> None <-> postUpload (state w) = true).
Proof.
  vm_compute. split; [done|]. split; [done|].
  intros [H _]. by specialize (H ltac:(discriminate)).
Qed.

(** C2, as amended.  In every state the component can reach,
    [outputMetadata] is non-null in complete and null in idle,
    audio-uploaded, processing, processed and script-uploaded; in generating
    it is null while the source is open and non-null once the [complete]
    event has arrived, during the 600 ms that precede the switch to
    complete. *)
Theorem outputMetadata_by_state (events : list Event) :
  let w := run events mounted in
  match state w with
  | Complete => outputMetadata w <> None
  | Generating =>
      (outputMetadata w <> None <-> openSources w = [])
      /\ (outputMetadata w <> None <->
          timers w = [{| timer_ms := 600; timer_state := Complete |}])
  | Idle | AudioUploaded | Processing | Processed | ScriptUploaded =>
      outputMetadata w = None
  end.
Proof.
  intros w. pose proof (reachable_Inv events) as HI. fold w in HI.
  unfold Inv, quiet in HI. destruct (state w); unpack; try done.
  split; (split; [congruence|]); intros Ht; rewrite Ht in *; congruence.
Qed.

(** C2, as stated, fails: the [complete] event has arrived, the state is
    still generating, and [outputMetadata] is already set. *)
Lemma outputMetadata_set_while_generating :
  let w := run (generation_starts ++ [SourceComplete 0 (Some finished)]) mounted in
  state w = Generating /\ outputMetadata w = Some finished
  /\ ~ (outputMetadata w <> None <-> state w = Complete).
Proof.
  vm_compute. split; [done|]. split; [done|].
  intros [H _]. by specialize (H ltac:(discriminate)).
Qed.

(** ** The generation stream *)

Lemma handler_sources_length e w :
  e = ClickGenerate \/ length (sources (handler e w)) = length (sources w).
Proof.
  world w. destruct e; simpl; try (by left); right; try done.
  - unfold handleProcessAudio. simpl. by destruct af.
  - by destruct (uploadAudio f).
  - by destruct (tm !! i).
  - unfold insertTag. simpl. by destruct (_ && _).
  - by destruct parsed.
  - destruct parsed; [apply length_alter|done].
  - apply length_alter.
  - unfold handleReset. simpl. destruct ref; simpl; [apply length_alter|done].
  - unfold pollIteration.
    destruct (checkHealth f) as [h|]; simpl; [|done].
    destruct (model_loaded h); [done|]. by destruct (bool_decide _).
Qed.

(** C3.  In every state the component can reach at most one source is open.
    While one is open the Generate button is not offered, so that a click
    changes nothing and opens nothing; and whenever an event constructs a
    source, no source was open before it. *)
Theorem one_open_source (events : list Event) :
  let w := run events mounted in
  (length (openSources w) <= 1)%nat
  /\ (openSources w <> [] -> step ClickGenerate w = w)
  /\ (forall e, length (sources (step e w)) <> length (sources w) ->
                openSources w = []).
Proof.
  intros w. pose proof (reachable_Inv events) as HI. fold w in HI.
  unfold Inv, quiet in HI. split; [|split].
  - destruct (state w); unpack;
      repeat match goal with H : openSources w = _ |- _ => rewrite H end;
      simpl; lia.
  - intros Hopen. unfold step, offered, inState.
    destruct (state w); unpack; try done.
  - intros e Hlen. unfold step in Hlen.
    destruct (offered e w) eqn:Hoff; [|done].
    rewrite scriptEffect_sources in Hlen.
    destruct (handler_sources_length e w) as [->|He]; [|done].
    unfold offered, inState in Hoff.
    destruct (state w); unpack; try done.
Qed.

Lemma one_open_source_witness :
  let w := run generation_starts mounted in
  openSources w = [0%nat] /\ (length (openSources w) <= 1)%nat
  /\ step ClickGenerate w = w.
Proof.
  pose proof (one_open_source generation_starts) as (Hle & Hrej & _).
  split; [by vm_compute|]. split; [exact Hle|].
  apply Hrej. by vm_compute.
Defined.

(** ** Reset *)

(** C4.  From every state the component can reach, generating included,
    [handleReset] leaves the state idle, [taskId], [audioMetadata],
    [outputMetadata], [error] and [audioFile] null, [progress] zero,
    [scriptText] and [generationStage] empty, and no source open. *)
Theorem reset_clears_session (events : list Event) :
  let w := handleReset (run events mounted) in
  state w = Idle /\ taskId w = None /\ audioMetadata w = None
  /\ outputMetadata w = None /\ progress w = 0%Q /\ scriptText w = js ""
  /\ error w = None /\ audioFile w = None /\ generationStage w = js ""
  /\ isPlaying w = false /\ eventSourceRef w = None /\ openSources w = [].
Proof.
  pose proof (reachable_Inv events) as HI. revert HI.
  generalize (run events mounted) as w0. intros w0 HI.
  world w0. unfold Inv, quiet, openSources, handleReset in *. simpl in *.
  destruct ref as [i|]; simpl; repeat split; try done.
  - by_state s; simplify_eq. by apply openFrom_close_only.
  - by by_state s; simplify_eq.
Qed.

(** In the middle of a generation, for one. *)
Example reset_while_generating :
  let w := run generation_starts mounted in
  state w = Generating /\ openSources w = [0%nat]
  /\ openSources (handleReset w) = [] /\ state (handleReset w) = Idle.
Proof. by vm_compute. Qed.

(** ** The script *)

Lemma trimStart_notBlank s : notBlank s = true -> notBlank (trimStart s) = true.
Proof.
  induction s as [|c s IH]; [done|]. simpl.
  destruct (isWhiteSpace c) eqn:Hc; simpl; [done|]. by rewrite Hc.
Qed.

Lemma notBlank_reverse s : notBlank (reverse s) = notBlank s.
Proof.
  unfold notBlank. apply eq_true_iff_eq. rewrite !existsb_exists.
  split; intros (c & Hin & Hc); exists c; split; try done;
    apply list_elem_of_In; apply list_elem_of_In in Hin;
    by apply elem_of_reverse.
Qed.

(** [trim] leaves something of a string that is not all white space. *)
Lemma trim_notBlank s : notBlank s = true -> truthy (trim s) = true.
Proof.
  intros Hs. assert (notBlank (trim s) = true) as Ht.
  { unfold trim, trimEnd.
    rewrite notBlank_reverse. apply trimStart_notBlank.
    rewrite notBlank_reverse. by apply trimStart_notBlank. }
  by destruct (trim s).
Qed.

(** The effect leaves the state that the text calls for, whatever it
    finds. *)
Lemma scriptEffect_Derived w : Derived (scriptEffect w).
Proof.
  world w. unfold scriptEffect, Derived. simpl.
  destruct s; simpl; try done;
    destruct (trim st) eqn:Ht; simpl; rewrite ?Ht; by split.
Qed.

Lemma run_Derived events w : Derived w -> Derived (run events w).
Proof.
  revert w. induction events as [|e events IH]; intros w Hw; [done|].
  simpl. apply IH. unfold step. destruct (offered e w); [|done].
  apply scriptEffect_Derived.
Qed.

(** In every state the component can reach, processed goes with a blank
    script and script-uploaded with one that is not. *)
Lemma reachable_Derived events : Derived (run events mounted).
Proof. apply run_Derived. by split. Qed.

(** After an edit, the state is read off the new text. *)
Lemma edit_rederives w e :
  inState [Processed; ScriptUploaded] w = true ->
  offered e w = true ->
  (forall s', state (handler e w) = s' -> s' = Processed \/ s' = ScriptUploaded) ->
  state (step e w)
  = if truthy (trim (scriptText (handler e w))) then ScriptUploaded else Processed.
Proof.
  intros Hst Hoff Hh. unfold step. rewrite Hoff.
  generalize dependent (handler e w). intros w' Hh. world w'.
  unfold scriptEffect. simpl in *.
  by destruct (Hh s eq_refl) as [-> | ->]; simpl; destruct (truthy (trim st)).
Qed.

(** C5, as amended.  In processed or script-uploaded, after any edit of the
    script (typing in the text area, or a speaker-tag button) the state is
    script-uploaded when the new text has a character that is not white
    space, and processed when it is empty or all white space, whatever the
    state and the text were before. *)
Theorem script_toggle (w : World) :
  inState [Processed; ScriptUploaded] w = true ->
  (forall value,
     let w' := step (ChangeScript value) w in
     scriptText w' = value
     /\ state w' = if truthy (trim value) then ScriptUploaded else Processed)
  /\ (forall t,
        let w' := step (ClickTag t) w in
        state w' = if truthy (trim (scriptText w')) then ScriptUploaded
                   else Processed).
Proof.
  intros Hst. split.
  - intros value w'. split.
    + unfold w', step, offered, handler. rewrite Hst.
      rewrite scriptEffect_scriptText. by world w.
    + unfold w'. rewrite edit_rederives; try done.
      * by world w.
      * world w. simpl in *. intros s' <-. by destruct s; try discriminate; auto.
  - intros t w'.
    assert (scriptText w' = scriptText (handler (ClickTag t) w)) as ->.
    { unfold w', step, offered. rewrite Hst.
      by rewrite scriptEffect_scriptText. }
    unfold w'. rewrite edit_rederives; try done.
    world w. simpl in *. unfold insertTag. simpl. intros s' <-.
    destruct s; try discriminate; simpl; destruct (truthy (trim st)); auto.
Qed.

(** A speaker tag is not white space: after the button the state is
    script-uploaded. *)
Lemma tag_makes_script w t :
  inState [Processed; ScriptUploaded] w = true ->
  state (step (ClickTag t) w) = ScriptUploaded.
Proof.
  intros Hst. rewrite edit_rederives; try done.
  - assert (truthy (trim (scriptText (handler (ClickTag t) w))) = true) as ->; [|done].
    apply trim_notBlank. world w. simpl. unfold insertTag. simpl.
    assert (notBlank (tagText t) = true) as Ht by (by destruct t).
    destruct (truthy (trim st) && _); simpl;
      unfold notBlank in *; rewrite !existsb_app, Ht;
      by rewrite orb_true_l, !orb_true_r.
  - world w. simpl in *. unfold insertTag. simpl. intros s' <-.
    destruct s; try discriminate; simpl; destruct (truthy (trim st)); auto.
Qed.

Lemma script_toggle_witness :
  let w := run (upload_succeeds ++ [TimerFires 0]) mounted in
  state (step (ChangeScript (js "[S1] Hello")) w) = ScriptUploaded
  /\ state (step (ChangeScript (js "")) (step (ChangeScript (js "[S1] Hello")) w))
     = Processed.
Proof.
  split.
  - exact (proj2 (proj1 (script_toggle
      (run (upload_succeeds ++ [TimerFires 0]) mounted) ltac:(by vm_compute))
      (js "[S1] Hello"))).
  - exact (proj2 (proj1 (script_toggle
      (step (ChangeScript (js "[S1] Hello"))
         (run (upload_succeeds ++ [TimerFires 0]) mounted)) ltac:(by vm_compute))
      (js ""))).
Defined.

(** C5, as stated, fails: a script of one space is not empty, yet the state
    after the edit is processed, not script-uploaded. *)
Lemma blank_script_stays_processed :
  let w := run (upload_succeeds ++ [TimerFires 0]) mounted in
  let w' := step (ChangeScript (js " ")) w in
  state w = Processed /\ scriptText w' = js " " /\ scriptText w' <> js ""
  /\ state w' = Processed
  /\ ~ (state w' = ScriptUploaded <-> scriptText w' <> js "").
Proof.
  vm_compute. repeat split; try done.
  intros [_ H]. by specialize (H ltac:(discriminate)).
Qed.

(** ** Upload failure *)

(** Whatever [uploadAudio] throws, the [catch] of [handleProcessAudio] takes
    the state back and stores a message. *)
Lemma step_upload_throws w f err :
  Inv w -> upload w <> None -> uploadAudio f = Throws err ->
  let w' := step (UploadSettled f) w in
  state w' = AudioUploaded /\ audioFile w' = upload w
  /\ error w' = Some (match err with
                      | ErrorInstance message => message
                      | OtherValue => js "Upload failed"
                      end).
Proof.
  intros HI Hup Hf. unfold step, offered, handler.
  world w. unfold Inv, quiet, scriptEffect in *. simpl in *.
  destruct up as [file|]; [simpl|done]. rewrite Hf. simpl.
  split; [done|]. split; [by by_state s|done].
Qed.

(** C6 fails on the code.  Whenever an upload is in flight and the response
    is not ok, the state does go back to audio-uploaded with [audioFile]
    still the file that was sent; and [error] is the [detail] of the body
    when that is a string, and "Upload failed (<status>)" when the body is
    not JSON or is an object without a [detail] or with a null one.  But a
    [detail] that is a list holding an object, as a validation error has it,
    is stored as "[object Object]", whatever messages the object holds (it
    has no member named [toString]); and on a body that is [null] what is
    stored is the message of the [TypeError] that reading [detail] throws.
    Neither is a message of the body or one made from the status. *)
Theorem upload_failure_message (events : list Event) (status : N)
    (json : option JSON) (typeError : JSString) :
  let w := run events mounted in
  upload w <> None ->
  let w' := step (UploadSettled (Resolved (UploadNotOk status json typeError))) w in
  let derived := js "Upload failed (" ++ ToStringN status ++ js ")" in
  state w' = AudioUploaded /\ audioFile w' = upload w
  /\ (json = None -> error w' = Some derived)
  /\ (forall members message,
        json = Some (JObject members) ->
        getMember (js "detail") members = Some (JString message) ->
        error w' = Some message)
  /\ (forall members,
        json = Some (JObject members) ->
        getMember (js "detail") members = None
        \/ getMember (js "detail") members = Some JNull ->
        error w' = Some derived)
  /\ (forall members fields,
        json = Some (JObject members) ->
        getMember (js "detail") members = Some (JArray [JObject fields]) ->
        getMember (js "toString") fields = None ->
        error w' = Some (js "[object Object]") /\ error w' <> Some derived)
  /\ (json = Some JNull -> error w' = Some typeError).
Proof.
  intros w Hup w' derived.
  pose proof (reachable_Inv events : Inv w) as HI.
  assert (forall message,
            uploadAudio (Resolved (UploadNotOk status json typeError))
            = Throws (ErrorInstance message) ->
            error w' = Some message) as Hcatch.
  { intros message Hf. exact (proj2 (proj2 (step_upload_throws w _ _ HI Hup Hf))). }
  assert (exists err,
            uploadAudio (Resolved (UploadNotOk status json typeError)) = Throws err)
    as [err Hf].
  { simpl. destruct (readDetail typeError (default (JObject []) json)); eauto. }
  destruct (step_upload_throws w _ _ HI Hup Hf) as (Hst & Hfile & _).
  split; [done|]. split; [done|].
  split; [intros ->; by apply Hcatch|].
  split; [intros members message -> Hd; apply Hcatch; simpl; by rewrite Hd|].
  split; [intros members -> [Hd|Hd]; apply Hcatch; simpl; by rewrite Hd|].
  split; [|intros ->; by apply Hcatch].
  intros members fields -> Hd Hfields.
  assert (error w' = Some (js "[object Object]")) as ->.
  { apply Hcatch. simpl. rewrite Hd. simpl. by rewrite Hfields. }
  split; [done|]. unfold derived. simpl. intros [=].
Qed.

Lemma upload_failure_message_witness :
  let w := run [SelectFile sample_wav; ClickProcess] mounted in
  let w' := step (UploadSettled field_required) w in
  state w' = AudioUploaded /\ audioFile w' = Some sample_wav
  /\ error w' = Some (js "[object Object]")
  /\ error w' <> Some (js "Upload failed (422)")
  /\ error (step (UploadSettled null_body) w) = Some v8_null_detail
  /\ error (step (UploadSettled unsupported_format) w)
     = Some (js "Unsupported audio format").
Proof.
  pose proof (upload_failure_message [SelectFile sample_wav; ClickProcess] 422
                (Some (JObject
                   [(js "detail",
                     JArray [JObject [(js "type", JString (js "missing"));
                                      (js "loc", JArray [JString (js "body");
                                                         JString (js "file")]);
                                      (js "msg", JString (js "Field required"))]])]))
                v8_null_detail ltac:(by vm_compute))
    as (H1 & H2 & _ & _ & _ & H3 & _).
  pose proof (upload_failure_message [SelectFile sample_wav; ClickProcess] 500
                (Some JNull) v8_null_detail ltac:(by vm_compute))
    as (_ & _ & _ & _ & _ & _ & H4).
  pose proof (upload_failure_message [SelectFile sample_wav; ClickProcess] 400
                (Some (JObject [(js "detail",
                                 JString (js "Unsupported audio format"))]))
                v8_null_detail ltac:(by vm_compute))
    as (_ & _ & _ & H5 & _).
  exact (conj H1 (conj H2 (conj (proj1 (H3 _ _ eq_refl eq_refl eq_refl))
          (conj (proj2 (H3 _ _ eq_refl eq_refl eq_refl))
             (conj (H4 eq_refl) (H5 _ _ eq_refl eq_refl)))))).
Defined.

(** ** Errors on the generation stream *)




(** ** The health poll *)

(** Only the poll loop touches [poller], and nothing unsets [modelReady]. *)
Lemma step_model e w :
  (poller w = Stopped -> poller (step e w) = Stopped)
  /\ (modelReady w = true -> modelReady (step e w) = true).
Proof.
  unfold step. destruct (offered e w) eqn:Hoff; [|done].
  autorewrite with effect.
  world w. destruct e; simpl in *; try done.
  - unfold handleProcessAudio. simpl. by destruct af.
  - by destruct (uploadAudio f).
  - by destruct (tm !! i).
  - unfold insertTag. simpl. by destruct (_ && _).
  - unfold handleGenerateVoice, newEventSource. simpl.
    destruct ti; [|done]. by destruct (truthy _ && truthy _).
  - by destruct parsed.
  - by destruct parsed.
  - unfold handleReset. simpl. by destruct ref.
  - destruct po; try discriminate. split; [done|].
    unfold pollIteration. destruct (checkHealth f) as [h|]; simpl; [|done].
    destruct (model_loaded h); [done|]. by destruct (bool_decide _).
  - by destruct po.
Qed.

Lemma run_model events w :
  (poller w = Stopped -> poller (run events w) = Stopped)
  /\ (modelReady w = true -> modelReady (run events w) = true).
Proof.
  revert w. induction events as [|e events IH]; intros w; [done|].
  simpl. destruct (step_model e w) as [Hp Hm], (IH (step e w)) as [Hp' Hm'].
  split; eauto.
Qed.

Lemma step_HealthSettled f w :
  poller w = AwaitingHealth ->
  step (HealthSettled f) w = scriptEffect (pollIteration f w).
Proof. intros Hp. unfold step, offered. by rewrite Hp. Qed.

Lemma step_PollTimeout w delay :
  poller w = Sleeping delay -> poller (step PollTimeout w) = AwaitingHealth.
Proof.
  intros Hp. unfold step, offered. rewrite Hp, scriptEffect_poller. by world w.
Qed.

Lemma pollRound_goesOn f w :
  poller w = AwaitingHealth -> goesOn f = true ->
  poller (step (HealthSettled f) w) = Sleeping 3000.
Proof.
  intros Hp Hgo. rewrite step_HealthSettled, scriptEffect_poller by done.
  world w. unfold goesOn in Hgo. unfold pollIteration.
  destruct (checkHealth f) as [h|]; simpl; [|done].
  destruct (model_loaded h); [done|]. by destruct (bool_decide _).
Qed.

Lemma pollRounds_goOn fs w :
  poller w = AwaitingHealth -> forallb goesOn fs = true ->
  poller (run (pollRounds fs) w) = AwaitingHealth.
Proof.
  revert w. induction fs as [|f fs IH]; intros w Hp Hgo; [done|].
  simpl in Hgo. apply andb_prop in Hgo as [Hf Hfs].
  unfold pollRounds. simpl. apply IH; [|done].
  eapply step_PollTimeout. by apply pollRound_goesOn.
Qed.

(** C8.  When a health query settles: if the response says the model is
    loaded, [modelReady] is set and no query is ever made again; otherwise,
    if it says the status is failed, the loop stops for good and [error] is
    set to a message that the banner shows; in every other case, and when
    the query fails, which shows as connecting, the loop sleeps 3000 ms and
    then queries again; and it does so however many times in a row such
    outcomes come, always with the same 3000 ms. *)
Theorem health_poll_iteration (w : World) (f : Fetched HealthHttp) :
  poller w = AwaitingHealth ->
  let w' := step (HealthSettled f) w in
  match checkHealth f with
  | Returns h =>
      if model_loaded h then
        modelReady w' = true /\ modelLoading w' = false
        /\ forall events, poller (run events w') = Stopped
                          /\ modelReady (run events w') = true
      else if bool_decide (model_status h = js "failed") then
        error w' = Some (js "Model failed to load: "
                         ++ default (js "unknown error") (model_error h))
        /\ offered DismissError w' = true
        /\ forall events, poller (run events w') = Stopped
      else
        poller w' = Sleeping 3000 /\ poller (step PollTimeout w') = AwaitingHealth
  | Throws _ =>
      modelStatus w' = js "connecting" /\ modelLoading w' = true
      /\ poller w' = Sleeping 3000 /\ poller (step PollTimeout w') = AwaitingHealth
  end
  /\ forall fs, forallb goesOn fs = true ->
                poller (run (pollRounds fs) w) = AwaitingHealth.
Proof.
  intros Hp w'. split; [|intros fs; by apply pollRounds_goOn].
  pose proof (pollRound_goesOn f w Hp) as Hgo. unfold goesOn in Hgo.
  pose proof (step_HealthSettled f w Hp) as Hw'. fold w' in Hw', Hgo.
  destruct (checkHealth f) as [h|] eqn:Hf.
  - destruct (model_loaded h) eqn:Hl.
    + assert (modelReady w' = true /\ modelLoading w' = false
              /\ poller w' = Stopped) as (Hr & Hml & Hs).
      { rewrite Hw'. autorewrite with effect.
        unfold pollIteration. rewrite Hf, Hl. by world w. }
      split; [done|]. split; [done|]. intros events.
      destruct (run_model events w') as [Hp' Hm']. eauto.
    + destruct (bool_decide (model_status h = js "failed")) eqn:Hs.
      * assert (error w' = Some (js "Model failed to load: "
                                 ++ default (js "unknown error") (model_error h))
                /\ poller w' = Stopped) as [He Hst].
        { rewrite Hw'. autorewrite with effect.
          unfold pollIteration. rewrite Hf, Hl, Hs. by world w. }
        split; [done|]. split.
        -- unfold offered. by rewrite He.
        -- intros events. by apply run_model.
      * specialize (Hgo eq_refl). split; [done|]. by eapply step_PollTimeout.
  - specialize (Hgo eq_refl).
    assert (modelStatus w' = js "connecting" /\ modelLoading w' = true) as [Hms Hml].
    { rewrite Hw'. autorewrite with effect.
      unfold pollIteration. rewrite Hf. by world w. }
    repeat split; try done. by eapply step_PollTimeout.
Qed.

Lemma health_poll_iteration_witness :
  poller (step (HealthSettled still_downloading) mounted) = Sleeping 3000
  /\ poller (step PollTimeout (step (HealthSettled still_downloading) mounted))
     = AwaitingHealth
  /\ modelReady (step (HealthSettled model_is_loaded) mounted) = true.
Proof.
  pose proof (health_poll_iteration mounted still_downloading eq_refl) as [H _].
  pose proof (health_poll_iteration mounted model_is_loaded eq_refl) as [H' _].
  exact (conj (proj1 H) (conj (proj2 H) (proj1 H'))).
Defined.

(** ** Formatting *)

(** C9.  The examples of the specification: 72.5 seconds, 2345678 bytes,
    500 bytes. *)
Theorem format_examples :
  formatDuration (725 # 10) = js "01:12.50s"
  /\ formatFileSize 2345678 = js "2.2 MB"
  /\ formatFileSize 500 = js "500 B".
Proof. by vm_compute. Qed.

Lemma digitsFuel_more fuel n :
  n < 2 ^ N.of_nat (S fuel) -> digitsFuel (S fuel) n = digitsFuel fuel n.
Proof.
  revert n. induction fuel as [|fuel IH]; intros n Hn.
  - simpl. change (2 ^ N.of_nat 1) with 2 in Hn.
    assert ((n <? 10) = true) as -> by (apply N.ltb_lt; lia).
    by rewrite N.mod_small by lia.
  - change (digitsFuel (S (S fuel)) n)
      with (if n <? 10 then [48 + n]
            else digitsFuel (S fuel) (n / 10) ++ [48 + n mod 10]).
    change (digitsFuel (S fuel) n)
      with (if n <? 10 then [48 + n]
            else digitsFuel fuel (n / 10) ++ [48 + n mod 10]).
    destruct (n <? 10) eqn:Hlt; [done|]. rewrite IH; [done|].
    apply N.ltb_ge in Hlt.
    rewrite Nat2N.inj_succ, N.pow_succ_r' in Hn.
    apply N.Div0.div_lt_upper_bound. lia.
Qed.

Lemma log2_bound n fuel :
  (N.to_nat (N.log2 n) <= fuel)%nat -> n < 2 ^ N.of_nat (S fuel).
Proof.
  intros Hle. destruct (N.eq_dec n 0) as [->|Hn0].
  - apply N.neq_0_lt_0, N.pow_nonzero. lia.
  - destruct (N.log2_spec n) as [_ Hs]; [lia|].
    eapply N.lt_le_trans; [exact Hs|].
    apply N.pow_le_mono_r; lia.
Qed.

Lemma digitsFuel_enough fuel n :
  n < 2 ^ N.of_nat (S fuel) -> digitsFuel fuel n = ToStringN n.
Proof.
  unfold ToStringN. intros Hn.
  assert (N.to_nat (N.log2 n) <= fuel)%nat as Hle.
  { destruct (N.eq_dec n 0) as [->|Hn0]; [simpl; lia|].
    assert (N.log2 n < N.of_nat (S fuel)); [|lia].
    apply N.log2_lt_pow2; lia. }
  clear Hn. induction Hle as [|fuel Hle IH]; [done|].
  by rewrite digitsFuel_more by (by apply log2_bound).
Qed.

(** The digits of a number of two digits or more: those of its tenth, then
    its last one. *)
Lemma ToStringN_step n :
  10 <= n -> ToStringN n = ToStringN (n / 10) ++ [48 + n mod 10].
Proof.
  intros Hn. unfold ToStringN at 1.
  destruct (N.to_nat (N.log2 n)) as [|fuel] eqn:Hfuel.
  - assert (N.log2 8 <= N.log2 n) by (apply N.log2_le_mono; lia).
    change (N.log2 8) with 3 in *. lia.
  - simpl. assert ((n <? 10) = false) as -> by (apply N.ltb_ge; lia).
    rewrite digitsFuel_enough; [done|].
    destruct (N.log2_spec n) as [_ Hs]; [lia|].
    replace (N.succ (N.log2 n)) with (N.succ (N.of_nat (S fuel))) in Hs by lia.
    rewrite N.pow_succ_r' in Hs.
    apply N.Div0.div_lt_upper_bound. lia.
Qed.

Lemma ToStringN_digit n : n < 10 -> ToStringN n = [48 + n].
Proof.
  intros Hn. unfold ToStringN. destruct (N.to_nat (N.log2 n)); simpl.
  - by rewrite N.mod_small.
  - by assert ((n <? 10) = true) as -> by (by apply N.ltb_lt).
Qed.

Lemma ToStringN_length n : (1 <= length (ToStringN n))%nat.
Proof.
  destruct (N.lt_ge_cases n 10) as [Hn|Hn].
  - rewrite ToStringN_digit by done. simpl. lia.
  - rewrite ToStringN_step, length_app by done. simpl. lia.
Qed.

(** A non-negative quotient by [2^20], rounded to tenths, the half up. *)
Lemma tenths_of_megabytes bytes :
  Z.to_N (Qfloor (Qabs (Z.of_N bytes # 1024 * 1024)
                  * inject_Z (10 ^ Z.of_nat 1) + (1 # 2)))
  = (10 * bytes + 524288) / 1048576.
Proof.
  unfold Qabs, Qmult, Qplus, Qfloor, inject_Z, Qnum, Qden.
  rewrite Z.abs_eq by lia.
  change (10 ^ Z.of_nat 1)%Z with 10%Z.
  change (Z.pos (1024 * 1024 * 1 * 2)) with (2 * 1048576)%Z.
  change (Z.pos (1024 * 1024 * 1)) with 1048576%Z.
  replace (Z.of_N bytes * 10 * 2 + 1 * 1048576)%Z
    with (2 * Z.of_N (10 * bytes + 524288))%Z by lia.
  rewrite Z.div_mul_cancel_l by lia.
  change 1048576%Z with (Z.of_N 1048576).
  by rewrite <- N2Z.inj_div, N2Z.id.
Qed.

(** C10.  For a byte count of at least 1048576, up to the largest that a
    number holds exactly, the result is the count in units of 1048576 bytes
    rounded to one decimal, that is its integer part, a point and one digit,
    followed by " MB": never a larger unit.  Three GiB are "3072.0 MB". *)
Theorem formatFileSize_megabytes (bytes : N) :
  1048576 <= bytes -> bytes <= MAX_SAFE_INTEGER ->
  let tenths := (10 * bytes + 524288) / 1048576 in
  length (ToStringN (tenths mod 10)) = 1%nat
  /\ formatFileSize bytes
     = ToStringN (tenths / 10) ++ js "." ++ ToStringN (tenths mod 10) ++ js " MB".
Proof.
  intros Hlo _ tenths.
  split; [by rewrite ToStringN_digit by (by apply N.mod_lt)|].
  unfold formatFileSize.
  assert ((bytes <? 1024) = false) as -> by (apply N.ltb_ge; lia).
  assert ((bytes <? 1024 * 1024) = false) as -> by (apply N.ltb_ge; lia).
  unfold toFixed. rewrite tenths_of_megabytes. fold tenths.
  destruct (Qlt_le_dec _ 0) as [Hneg|_].
  { unfold Qlt in Hneg. simpl in Hneg. lia. }
  assert (10 <= tenths) as Hten.
  { unfold tenths. apply N.div_le_lower_bound; lia. }
  rewrite (ToStringN_step tenths), (ToStringN_digit (tenths mod 10))
    by (done || by apply N.mod_lt).
  pose proof (ToStringN_length (tenths / 10)) as Hlen.
  unfold padStart. rewrite !length_app. simpl length.
  replace (2 - (length (ToStringN (tenths / 10)) + 1))%nat with 0%nat by lia.
  simpl replicate. rewrite !app_nil_l. simpl length.
  replace (0 + (length (ToStringN (tenths / 10)) + 1) - 1)%nat
    with (length (ToStringN (tenths / 10))) by lia.
  rewrite take_app_length, drop_app_length.
  by rewrite <- !app_assoc.
Qed.

Lemma formatFileSize_megabytes_witness :
  formatFileSize (3 * 1024 * 1024 * 1024)
  = ToStringN 3072 ++ js "." ++ ToStringN 0 ++ js " MB"
  /\ ToStringN 3072 ++ js "." ++ ToStringN 0 ++ js " MB" = js "3072.0 MB".
Proof.
  split; [|by vm_compute].
  exact (proj2 (formatFileSize_megabytes (3 * 1024 * 1024 * 1024)
                  ltac:(by vm_compute) ltac:(by vm_compute))).
Defined.

(** ** Scenarios *)

(** [handleGenerateVoice] does not look at [eventSourceRef]: called while a
    source is open it would open a second one and leave the first.  The
    component never calls it then, the button that does is not rendered. *)
Remark handleGenerateVoice_unguarded :
  let w := run generation_starts mounted in
  openSources w = [0%nat] /\ offered ClickGenerate w = false
  /\ openSources (handleGenerateVoice w) = [0%nat; 1%nat].
Proof. by vm_compute. Qed.

(** A file is selected, processed, and the upload succeeds: processed after
    the 400 ms. *)
Example scenario_upload :
  state (run [SelectFile sample_wav] mounted) = AudioUploaded
  /\ state (run (upload_succeeds ++ [TimerFires 0]) mounted) = Processed
  /\ taskId (run (upload_succeeds ++ [TimerFires 0]) mounted) = Some (js "abc123").
Proof. by vm_compute. Qed.

(** With a script and the model not ready, Generate is not offered; a health
    response with [model_loaded] offers it and changes nothing else of the
    session. *)
Example scenario_model_ready :
  let w := run (upload_succeeds ++ [TimerFires 0; ChangeScript (js "[S1] Hello")]) mounted in
  let w' := step (HealthSettled model_is_loaded) w in
  state w = ScriptUploaded /\ offered ClickGenerate w = false
  /\ offered ClickGenerate w' = true /\ state w' = ScriptUploaded
  /\ scriptText w' = scriptText w /\ taskId w' = taskId w.
Proof. by vm_compute. Qed.

(** A progress event shows, a complete event forces 100, closes the source,
    and completes after the 600 ms. *)
Example scenario_generation :
  let p := {| pe_status := js "running"; pe_progress := 42; pe_stage := js "Vocoding" |} in
  let w := run (generation_starts ++ [SourceProgress 0 (Some p)]) mounted in
  let w' := step (SourceComplete 0 (Some finished)) w in
  progress w = 42%Q /\ generationStage w = js "Vocoding"
  /\ progress w' = 100%Q /\ openSources w' = [] /\ state w' = Generating
  /\ state (step (TimerFires 0) w') = Complete.
Proof. by vm_compute. Qed.

(** * More properties *)

(** ** What is stored with what *)

Lemma alter_close_nil i (l : list EventSource) : alter close i l <> [] -> l <> [].
Proof. by destruct l. Qed.

Ltac no_open H :=
  match goal with
  | H' : openFrom 0 _ = [] |- _ => rewrite H' in H; by inversion H
  end.

Lemma scriptEffect_Stored w : Stored w -> Stored (scriptEffect w).
Proof.
  intros HS. destruct (scriptEffect_setState w) as [s' Hs'].
  assert (state (scriptEffect w) = state w
          \/ (inState [Processed; ScriptUploaded] w = true
              /\ inState [Processed; ScriptUploaded] (scriptEffect w) = true))
    as Hst.
  { world w. unfold scriptEffect. simpl.
    destruct s; simpl; auto; destruct (truthy (trim st)); simpl; auto. }
  rewrite Hs' in *. clear Hs'. world w. unfold Stored, openSources in *.
  simpl in *. destruct Hst as [-> | [H1 H2]]; [done|].
  destruct s, s'; simpl in *; try discriminate; unpack; conj.
Qed.

Ltac stored :=
  conj;
  try (intros;
       match goal with
       | Hi : _ ∈ [] |- _ => by inversion Hi
       | Hi : _ ∈ openFrom 0 _ |- _ => first [ no_open Hi | eauto ]
       end).

Lemma handler_Stored e w :
  offered e w = true -> Inv w -> Stored w -> Stored (handler e w).
Proof.
  intros Hoff HI HS. world w. unfold Inv, quiet, Stored, openSources in *.
  destruct HS as (Hti & Hmr & Hopen & HS).
  destruct e; simpl in *.
  - by_state s; stored.
  - by_state s; stored.
  - unfold handleProcessAudio. simpl. destruct af as [file|]; [|by_state s; done].
    by_state s; stored.
  - destruct (uploadAudio f) as [data|err]; by_state s; stored.
  - destruct (tm !! i) as [t|] eqn:Ht; [|done].
    by_state s; destruct i; simpl in *; simplify_eq; simpl; stored.
  - by_state s; stored.
  - unfold insertTag; simpl. destruct (truthy (trim st) && _); by_state s; stored.
  - apply andb_prop in Hoff as [Hoff Hm]. apply andb_prop in Hoff as [Hoff Htr].
    unfold handleGenerateVoice. simpl. destruct ti as [task|]; [|by by_state s].
    rewrite Htr, andb_true_r. destruct (truthy task); [|done]. simpl.
    by_state s; rewrite openFrom_app; simpl;
      match goal with H : openFrom 0 so = [] |- _ => rewrite H end;
      simpl; conj;
      try (intros i Hi; apply list_elem_of_singleton in Hi; subst i;
           eexists; rewrite lookup_app_r, Nat.sub_diag by lia; by simpl).
  - apply isOpen_openSources in Hoff. unfold openSources in Hoff.
    destruct parsed; by_state s; the_open_source Hoff; stored.
  - apply isOpen_openSources in Hoff. unfold openSources in Hoff.
    destruct parsed; [|by_state s; the_open_source Hoff; stored].
    by_state s; the_open_source Hoff;
      rewrite ?(openFrom_close_only _ _ ltac:(eassumption)); stored;
      eauto using alter_close_nil.
  - apply isOpen_openSources in Hoff. unfold openSources in Hoff.
    by_state s; the_open_source Hoff;
      rewrite ?(openFrom_close_only _ _ ltac:(eassumption)); stored;
      eauto using alter_close_nil.
  - by_state s; stored.
  - by_state s; stored.
  - by_state s; stored.
  - unfold handleReset. by_state s; stored.
  - unfold pollIteration. clear Hoff.
    destruct (checkHealth f) as [h|]; simpl;
      [destruct (model_loaded h); [|destruct (bool_decide _)]|];
      by_state s; stored.
  - clear Hoff. by_state s; stored.
Qed.

Lemma step_Stored e w : Inv w -> Stored w -> Stored (step e w).
Proof.
  intros HI HS. unfold step. destruct (offered e w) eqn:Hoff; [|done].
  by apply scriptEffect_Stored, handler_Stored.
Qed.

Lemma run_Stored events w : Inv w -> Stored w -> Stored (run events w).
Proof.
  revert w. induction events as [|e events IH]; intros w HI HS; [done|].
  simpl. apply IH; [by apply step_Inv|by apply step_Stored].
Qed.

Lemma mounted_Stored : Stored mounted.
Proof.
  unfold Stored. simpl. repeat split; try done.
  intros i Hi. inversion Hi.
Qed.

Lemma reachable_Stored events : Stored (run events mounted).
Proof. apply run_Stored; [apply mounted_Inv|apply mounted_Stored]. Qed.

Lemma step_Readiness e w : Readiness w -> Readiness (step e w).
Proof.
  intros HR. unfold step. destruct (offered e w) eqn:Hoff; [|done].
  unfold Readiness. autorewrite with effect.
  world w. unfold Readiness in HR. simpl in HR.
  destruct HR as (H1 & H2 & H3 & H4).
  destruct e; simpl in *; try (by repeat split).
  - unfold handleProcessAudio. simpl. by destruct af.
  - by destruct (uploadAudio f).
  - by destruct (tm !! i).
  - unfold insertTag. simpl. by destruct (_ && _).
  - unfold handleGenerateVoice, newEventSource. simpl.
    destruct ti; [|done]. by destruct (truthy _ && truthy _).
  - by destruct parsed.
  - by destruct parsed.
  - unfold handleReset. simpl. by destruct ref.
  - destruct po; try discriminate. unfold pollIteration.
    destruct (checkHealth f) as [h|]; simpl.
    + destruct (model_loaded h) eqn:Hl; simpl; [by repeat split|].
      destruct (bool_decide (model_status h = js "failed")) eqn:Hf; simpl.
      * apply bool_decide_eq_true in Hf. by repeat split.
      * repeat split; try done; try congruence.
        intros Hm. specialize (H2 Hm). discriminate.
    + repeat split; try done; try congruence.
      intros Hm. specialize (H2 Hm). discriminate.
  - destruct po; try discriminate. repeat split; try done.
    intros Hm. specialize (H2 Hm). discriminate.
Qed.

Lemma reachable_Readiness events : Readiness (run events mounted).
Proof.
  assert (forall w, Readiness w -> Readiness (run events w)) as H.
  { induction events as [|e events IH]; intros w Hw; [done|].
    simpl. by apply IH, step_Readiness. }
  apply H. unfold Readiness. by simpl.
Qed.

(** ** The moves of the state *)

Ltac moves :=
  simpl;
  repeat match goal with
    | |- context [truthy (trim ?x)] => destruct (truthy (trim x)); simpl
    end;
  auto.

Lemma step_moves e w :
  Inv w -> Derived w -> Stored w ->
  state (step e w) = state w \/ edge (state w) (state (step e w)) = true.
Proof.
  intros HI [HD1 HD2] HS. unfold step.
  destruct (offered e w) eqn:Hoff; [|by left].
  world w. unfold Inv, quiet, Stored, openSources, scriptEffect in *.
  destruct HS as (_ & _ & _ & HS). simpl in *.
  destruct e; simpl in *.
  - by_state s; moves.
  - by_state s; moves.
  - unfold handleProcessAudio. simpl. destruct af as [file|]; by_state s; moves.
  - destruct (uploadAudio f) as [data|err]; by_state s; moves.
  - destruct (tm !! i) as [t|] eqn:Ht; [|by_state s; moves].
    by_state s; destruct i; simpl in *; simplify_eq; moves.
  - by_state s; moves.
  - unfold insertTag. simpl. by_state s; moves.
  - apply andb_prop in Hoff as [Hoff Hm]. apply andb_prop in Hoff as [Hoff Htr].
    unfold handleGenerateVoice. simpl.
    destruct s; simpl in *; try discriminate.
    + rewrite (HD1 eq_refl) in Htr. discriminate.
    + destruct ti as [task|]; simpl; rewrite Htr; simpl; auto.
      destruct (truthy task); simpl; rewrite ?Htr; simpl; auto.
  - destruct parsed; by_state s; moves.
  - destruct parsed; by_state s; moves.
  - apply isOpen_openSources in Hoff. unfold openSources in Hoff.
    by_state s; the_open_source Hoff.
    assert (truthy (trim st) = true) as -> by (by destruct (trim st)).
    simpl. auto.
  - by_state s; moves.
  - by_state s; moves.
  - by_state s; moves.
  - unfold handleReset. by_state s; moves.
  - unfold pollIteration.
    destruct (checkHealth f) as [h|]; simpl;
      [destruct (model_loaded h);
        [|destruct (bool_decide (model_status h = js "failed"))]|];
      simpl; destruct s; moves.
  - destruct s; moves.
Qed.

(** X1.  The state only ever moves along the eleven edges of [edge], and
    each of them is taken by some run of the component. *)
Theorem state_moves_along_edges :
  (forall events e,
     let w := run events mounted in
     state (step e w) = state w \/ edge (state w) (state (step e w)) = true)
  /\ (forall s s', edge s s' = true ->
        exists events e,
          state (run events mounted) = s
          /\ state (step e (run events mounted)) = s').
Proof.
  split.
  - intros events e w. apply step_moves;
      [apply reachable_Inv|apply reachable_Derived|apply reachable_Stored].
  - intros s s' He.
    pose (failed := UploadSettled (Resolved (UploadNotOk 500 None v8_null_detail))).
    pose (scripted := upload_succeeds ++ [TimerFires 0; ChangeScript (js "Hi")]).
    destruct s, s'; try discriminate.
    + by exists [], (SelectFile sample_wav).
    + by exists [SelectFile sample_wav], RemoveFile.
    + by exists [SelectFile sample_wav], ClickProcess.
    + by exists [SelectFile sample_wav; ClickProcess], failed.
    + by exists upload_succeeds, (TimerFires 0).
    + by exists (upload_succeeds ++ [TimerFires 0]), (ChangeScript (js "Hi")).
    + by exists scripted, (ChangeScript (js " ")).
    + by exists (scripted ++ [HealthSettled model_is_loaded]), ClickGenerate.
    + by exists generation_starts, (SourceError 0 PlainEvent).
    + by exists (generation_starts ++ [SourceComplete 0 (Some finished)]),
        (TimerFires 0).
    + by exists (generation_starts ++ [SourceComplete 0 (Some finished);
                                       TimerFires 0]), ClickReset.
Qed.

(** ** The upload, from the response on *)

(** What is known of a world the component can be in. *)
Ltac reachable events w HI HD HS :=
  pose proof (reachable_Inv events : Inv w) as HI;
  pose proof (reachable_Derived events : Derived w) as HD;
  pose proof (reachable_Stored events : Stored w) as HS;
  clearbody w.

(** X2.  When the upload succeeds: the response is stored at once, the
    progress reads 100 and the state stays processing with one timeout of
    400 ms pending; when it fires the state is processed, with the task id
    of the response, its metadata, and the file that was uploaded. *)
Theorem upload_success_completes (events : list Event) (data : UploadAudioResponse) :
  let w := run events mounted in
  upload w <> None ->
  let w1 := step (UploadSettled (Resolved (UploadOk (Returns data)))) w in
  let w2 := step (TimerFires 0) w1 in
  (state w = Processing /\ upload w = audioFile w)
  /\ (state w1 = Processing /\ progress w1 = 100%Q /\ upload w1 = None
      /\ timers w1 = [{| timer_ms := 400; timer_state := Processed |}])
  /\ (state w2 = Processed /\ timers w2 = []
      /\ taskId w2 = Some (task_id data) /\ audioMetadata w2 = Some data
      /\ progress w2 = 100%Q /\ audioFile w2 = audioFile w /\ audioFile w2 <> None).
Proof.
  intros w Hup w1 w2.
  subst w1 w2. reachable events w HI HD HS.
  world w. unfold Inv, quiet, Stored, step in *.
  destruct HS as (_ & _ & _ & HS).
  by_state s; try done. by destruct af.
Qed.

Lemma upload_success_completes_witness :
  let w2 := run (upload_succeeds ++ [TimerFires 0]) mounted in
  state w2 = Processed /\ taskId w2 = Some (js "abc123")
  /\ audioFile w2 = Some sample_wav.
Proof.
  pose proof (upload_success_completes [SelectFile sample_wav; ClickProcess] abc123
                ltac:(by vm_compute)) as (_ & _ & H1 & _ & H2 & _ & _ & H3 & _).
  exact (conj H1 (conj H2 H3)).
Defined.

(** X3.  When the upload fails in any way, a response that is not ok, no
    response at all, or an ok response whose body is not JSON: the state is
    back to audio-uploaded with the file still selected, so that Process can
    be clicked again; nothing of a task is stored; the error is the message
    of what was thrown, or "Upload failed" when that is not an [Error]. *)
Theorem upload_throw_recovers (events : list Event) (f : Fetched UploadResponse)
    (err : Thrown) :
  let w := run events mounted in
  upload w <> None -> uploadAudio f = Throws err ->
  let w' := step (UploadSettled f) w in
  state w' = AudioUploaded
  /\ audioFile w' = audioFile w /\ audioFile w' <> None
  /\ error w' = Some (match err with
                      | ErrorInstance message => message
                      | OtherValue => js "Upload failed"
                      end)
  /\ taskId w' = None /\ audioMetadata w' = None
  /\ upload w' = None /\ timers w' = []
  /\ offered ClickProcess w' = true.
Proof.
  intros w Hup Hf w'.
  subst w'. reachable events w HI HD HS.
  world w. unfold Inv, quiet, Stored, step in *.
  destruct HS as (Hti & _ & _ & HS). simpl in *. rewrite Hf.
  by_state s; try done. destruct af; [|done]. by destruct am.
Qed.

Lemma upload_throw_recovers_witness :
  let w' := run [SelectFile sample_wav; ClickProcess;
                 UploadSettled (Rejected OtherValue)] mounted in
  state w' = AudioUploaded /\ error w' = Some (js "Upload failed")
  /\ offered ClickProcess w' = true.
Proof.
  pose proof (upload_throw_recovers [SelectFile sample_wav; ClickProcess]
                (Rejected OtherValue) OtherValue
                ltac:(by vm_compute) eq_refl) as (H1 & _ & _ & H2 & _ & _ & _ & _ & H3).
  exact (conj H1 (conj H2 H3)).
Defined.

(** ** The generation, from the complete event on *)

Lemma none_open i w : openSources w = [] -> isOpen i w = false.
Proof.
  intros Hno. destruct (isOpen i w) eqn:Hi; [|done].
  apply isOpen_openSources in Hi. rewrite Hno in Hi. inversion Hi.
Qed.

(** X4.  When the source delivers a complete event that parses: the output
    metadata is stored, the progress reads 100, the source is closed and
    forgotten, so that no later event of any source is listened to, and one
    timeout of 600 ms is pending; when it fires the state is complete, with
    the script and the task id as they were. *)
Theorem generation_completes (events : list Event) (i : nat) (data : CompleteEvent) :
  let w := run events mounted in
  isOpen i w = true ->
  let w1 := step (SourceComplete i (Some data)) w in
  let w2 := step (TimerFires 0) w1 in
  (state w = Generating /\ eventSourceRef w = Some i)
  /\ (state w1 = Generating /\ outputMetadata w1 = Some data
      /\ progress w1 = 100%Q /\ eventSourceRef w1 = None
      /\ timers w1 = [{| timer_ms := 600; timer_state := Complete |}]
      /\ forall j, isOpen j w1 = false)
  /\ (state w2 = Complete /\ outputMetadata w2 = Some data
      /\ progress w2 = 100%Q /\ timers w2 = []
      /\ scriptText w2 = scriptText w /\ taskId w2 = taskId w
      /\ audioMetadata w2 = audioMetadata w).
Proof.
  intros w Hopen w1 w2. subst w1 w2. reachable events w HI HD HS.
  assert (Inv (step (SourceComplete i (Some data)) w)) as HI1 by (by apply step_Inv).
  revert HI1. unfold step. simpl offered. rewrite Hopen.
  apply isOpen_openSources in Hopen. unfold openSources in Hopen.
  world w. unfold Inv, quiet, Stored, openSources in *. simpl in *.
  by_state s; the_open_source Hopen.
  intros (_ & _ & _ & [(? & ? & _)|(_ & Hno & _)]); [done|].
  conj. intros j. by apply none_open.
Qed.

Lemma generation_completes_witness :
  let w2 := run (generation_starts ++ [SourceComplete 0 (Some finished); TimerFires 0])
              mounted in
  state w2 = Complete /\ outputMetadata w2 = Some finished.
Proof.
  pose proof (generation_completes generation_starts 0 finished eq_refl)
    as (_ & _ & H1 & H2 & _).
  exact (conj H1 H2).
Defined.

(** ** The sources over time *)

(** What an event does to the sources: nothing, [close()] on one of them, or
    one more, opened by [handleGenerateVoice] for the task id and the trimmed
    script, neither of them empty. *)
Lemma step_sources e w :
  sources (step e w) = sources w
  \/ (exists i, sources (step e w) = alter close i (sources w))
  \/ (exists task,
        taskId w = Some task /\ truthy task = true
        /\ truthy (trim (scriptText w)) = true
        /\ sources (step e w)
           = sources w ++ [{| es_task_id := task; es_text := trim (scriptText w);
                              es_closed := false |}]).
Proof.
  unfold step. destruct (offered e w); [|by left].
  rewrite scriptEffect_sources. world w. destruct e; simpl; auto.
  - unfold handleProcessAudio. simpl. destruct af; auto.
  - destruct (uploadAudio f); auto.
  - destruct (tm !! i); auto.
  - unfold insertTag. simpl. destruct (_ && _); auto.
  - unfold handleGenerateVoice. simpl. destruct ti as [task|]; auto.
    destruct (truthy task) eqn:Ht, (truthy (trim st)) eqn:Hs; simpl; auto.
    right. right. by exists task.
  - destruct parsed; auto.
  - destruct parsed; simpl; eauto.
  - eauto.
  - unfold handleReset. simpl. destruct ref; simpl; eauto.
  - unfold pollIteration.
    destruct (checkHealth f) as [h|]; simpl; auto.
    destruct (model_loaded h); auto. destruct (bool_decide _); auto.
Qed.

(** Every source was opened for a task id and a text that are not empty. *)
Lemma reachable_requests events :
  Forall (fun es => truthy (es_task_id es) = true /\ truthy (es_text es) = true)
         (sources (run events mounted)).
Proof.
  assert (forall w,
            Forall (fun es => truthy (es_task_id es) = true
                              /\ truthy (es_text es) = true) (sources w) ->
            Forall (fun es => truthy (es_task_id es) = true
                              /\ truthy (es_text es) = true)
                   (sources (run events w))) as H.
  { induction events as [|e events IH]; intros w Hw; [done|].
    simpl. apply IH.
    destruct (step_sources e w) as [-> | [[j ->] | (task & _ & Ht & Hs & ->)]].
    - done.
    - apply Forall_alter; [done|]. by intros es _ H.
    - apply Forall_app. split; [done|]. by apply Forall_singleton. }
  apply H. by apply Forall_nil.
Qed.

(** X6.  A source that is open is the one in [eventSourceRef], while the
    state is generating; it was opened for the task id that is stored and
    for the script as it still stands, trimmed; neither is empty. *)
Theorem open_source_request (events : list Event) (i : nat) :
  let w := run events mounted in
  isOpen i w = true ->
  state w = Generating /\ eventSourceRef w = Some i
  /\ exists es,
       sources w !! i = Some es
       /\ taskId w = Some (es_task_id es) /\ taskId w = task_id <$> audioMetadata w
       /\ es_text es = trim (scriptText w)
       /\ truthy (es_task_id es) = true /\ truthy (es_text es) = true.
Proof.
  intros w Hopen. pose proof (reachable_requests events) as HR. fold w in HR.
  reachable events w HI HD HS.
  apply isOpen_openSources in Hopen. destruct HS as (Hti & _ & Hreq & _).
  destruct (Hreq i Hopen) as (es & Hi & Htask & Htext).
  assert (state w = Generating /\ eventSourceRef w = Some i) as [Hst Href].
  { unfold openSources in Hopen. world w. unfold Inv, quiet, openSources in *.
    simpl in *. by_state s; the_open_source Hopen; done. }
  split; [done|]. split; [done|]. exists es.
  rewrite Forall_lookup in HR. destruct (HR i es Hi) as [Ht Hs].
  by repeat split.
Qed.

Lemma open_source_request_witness :
  let w := run generation_starts mounted in
  state w = Generating /\ eventSourceRef w = Some 0%nat
  /\ exists es,
       sources w !! 0%nat = Some es
       /\ taskId w = Some (es_task_id es) /\ taskId w = task_id <$> audioMetadata w
       /\ es_text es = trim (scriptText w)
       /\ truthy (es_task_id es) = true /\ truthy (es_text es) = true.
Proof. exact (open_source_request generation_starts 0 eq_refl). Defined.

(** ** The cells, state by state *)

(** X7.  The task id is that of the upload response that is stored, and
    both are missing together. *)
Theorem taskId_of_audioMetadata (events : list Event) :
  let w := run events mounted in
  taskId w = task_id <$> audioMetadata w.
Proof. intros w. by destruct (reachable_Stored events) as (H & _). Qed.

(** X8.  A file is held in every state but idle. *)
Theorem audioFile_unless_idle (events : list Event) :
  let w := run events mounted in
  audioFile w = None <-> state w = Idle.
Proof.
  intros w. reachable events w HI HD HS. destruct HS as (_ & _ & _ & HS).
  world w. simpl in *. by_state s; done.
Qed.

(** X9.  What the cells of the panels that are not shown hold: before the
    analysis is done the script is empty, and the playback is off except in
    complete; the progress of the upload reads 0 until the response is there
    and 100 from then on; the progress of the generation reads 100 once the
    output is stored, and still does in complete. *)
Theorem cells_by_state (events : list Event) :
  let w := run events mounted in
  match state w with
  | Idle | AudioUploaded => scriptText w = js "" /\ isPlaying w = false
  | Processing =>
      scriptText w = js "" /\ isPlaying w = false
      /\ progress w = (if isSome (taskId w) then 100 else 0)%Q
  | Processed | ScriptUploaded => isPlaying w = false
  | Generating =>
      isPlaying w = false /\ (outputMetadata w <> None -> progress w = 100%Q)
  | Complete => progress w = 100%Q
  end.
Proof.
  intros w. reachable events w HI HD HS. destruct HS as (_ & _ & _ & HS).
  world w. unfold Inv, quiet in *. simpl in *.
  by_state s; try done.
  - by destruct af.
  - by destruct ti.
  - split; [done|]. intros _.
    by match goal with H : _ -> _ = 100%Q |- _ => apply H end.
Qed.

(** X10.  No [EventSource] is constructed before a health response has
    said that the model is loaded. *)
Theorem no_source_before_model_ready (events : list Event) :
  let w := run events mounted in
  modelReady w = false -> sources w = [].
Proof.
  intros w Hm. destruct (reachable_Stored events) as (_ & H & _). fold w in H.
  destruct (sources w); [done|]. rewrite H in Hm; done.
Qed.

Lemma no_source_before_model_ready_witness :
  sources (run (upload_succeeds ++ [TimerFires 0; ChangeScript (js "[S1] Hello");
                                    ClickGenerate]) mounted) = [].
Proof.
  exact (no_source_before_model_ready
           (upload_succeeds ++ [TimerFires 0; ChangeScript (js "[S1] Hello");
                                ClickGenerate]) eq_refl).
Defined.

(** ** The poll loop and what it leaves behind *)

(** X11.  While the loop awaits a response or sleeps, the model is not ready,
    and it never sleeps anything but 3000 ms; once it has returned, the
    loading banner is gone, and either the model is ready or its status is
    failed. *)
Theorem poll_loop_by_phase (events : list Event) :
  let w := run events mounted in
  match poller w with
  | AwaitingHealth => modelReady w = false
  | Sleeping ms => ms = 3000 /\ modelReady w = false
  | Stopped =>
      loadingBanner w = false
      /\ (modelReady w = true \/ modelStatus w = js "failed")
  end.
Proof.
  intros w. destruct (reachable_Readiness events) as (H1 & H2 & H3 & H4).
  fold w in H1, H2, H3, H4. unfold loadingBanner.
  destruct (poller w) as [|ms|] eqn:Hp.
  - destruct (modelReady w); [|done]. by specialize (H2 eq_refl).
  - split; [by apply H1|]. destruct (modelReady w); [|done]. by specialize (H2 eq_refl).
  - rewrite H3 by done. split; [done|]. destruct (modelReady w); auto.
Qed.

(** Once the loop has returned, nothing touches what it has set. *)
Lemma step_stopped e w :
  poller w = Stopped ->
  poller (step e w) = Stopped /\ modelReady (step e w) = modelReady w
  /\ modelStatus (step e w) = modelStatus w
  /\ modelLoading (step e w) = modelLoading w.
Proof.
  intros Hp. unfold step. destruct (offered e w) eqn:Hoff; [|done].
  autorewrite with effect.
  world w. simpl in Hp. subst po. destruct e; simpl in *; try done.
  - unfold handleProcessAudio. simpl. by destruct af.
  - by destruct (uploadAudio f).
  - by destruct (tm !! i).
  - unfold insertTag. simpl. by destruct (_ && _).
  - unfold handleGenerateVoice, newEventSource. simpl.
    destruct ti; [|done]. by destruct (truthy _ && truthy _).
  - by destruct parsed.
  - by destruct parsed.
  - unfold handleReset. simpl. by destruct ref.
Qed.

Lemma run_stopped events w :
  poller w = Stopped ->
  poller (run events w) = Stopped /\ modelReady (run events w) = modelReady w
  /\ modelStatus (run events w) = modelStatus w
  /\ modelLoading (run events w) = modelLoading w.
Proof.
  revert w. induction events as [|e events IH]; intros w Hp; [done|].
  simpl. destruct (step_stopped e w Hp) as (Hp' & Hm & Hs & Hl).
  destruct (IH _ Hp') as (? & ? & ? & ?). repeat split; congruence.
Qed.

Lemma unready_no_source events :
  modelReady (run events mounted) = false -> sources (run events mounted) = [].
Proof.
  intros Hm. destruct (reachable_Stored events) as (_ & H & _).
  destruct (sources _); [done|]. rewrite H in Hm; done.
Qed.

(** X12.  If the loop has returned without the model being ready, that is
    for good: whatever happens afterwards no health query is made, the model
    never becomes ready, Generate is never enabled, no source is ever
    constructed, and whenever a script is there the note that the model is
    still loading is shown, though the banner is not. *)
Theorem failed_model_is_final (events later : list Event) :
  let w := run events mounted in
  poller w = Stopped -> modelReady w = false ->
  let w' := run later w in
  modelReady w' = false /\ modelStatus w' = js "failed"
  /\ (forall f, offered (HealthSettled f) w' = false)
  /\ offered PollTimeout w' = false
  /\ offered ClickGenerate w' = false
  /\ sources w' = []
  /\ loadingBanner w' = false
  /\ waitingNote w'
     = inState [Processed; ScriptUploaded] w' && truthy (trim (scriptText w')).
Proof.
  intros w Hp Hm w'.
  destruct (run_stopped later w Hp) as (Hp' & Hm' & Hs' & Hl'). fold w' in Hp', Hm', Hs', Hl'.
  destruct (reachable_Readiness events) as (_ & _ & H3 & H4). fold w in H3, H4.
  assert (w' = run (events ++ later) mounted) as Hw'.
  { unfold w', w, run. by rewrite foldl_app. }
  assert (sources w' = []) as Hso.
  { rewrite Hw'. apply unready_no_source. rewrite <- Hw'. congruence. }
  unfold loadingBanner, waitingNote, offered.
  rewrite Hp', Hm', Hs', Hl', Hm, H3, H4 by done.
  simpl. by rewrite !andb_false_r, andb_true_r.
Qed.

Lemma failed_model_is_final_witness :
  let w' := run ([HealthSettled model_has_failed] ++ upload_succeeds
                 ++ [TimerFires 0; ChangeScript (js "[S1] Hello")]) mounted in
  state w' = ScriptUploaded /\ offered ClickGenerate w' = false
  /\ waitingNote w' = true /\ loadingBanner w' = false.
Proof.
  pose proof (failed_model_is_final [HealthSettled model_has_failed]
                (upload_succeeds ++ [TimerFires 0; ChangeScript (js "[S1] Hello")])
                eq_refl eq_refl) as (_ & _ & _ & _ & H5 & _ & H7 & H8).
  exact (conj eq_refl (conj H5 (conj (eq_trans H8 eq_refl) H7))).
Defined.

(** ** Generate *)

(** X13.  When Generate is offered and clicked: a task id is stored; if it
    is not the empty string the state is generating, the progress reads 0
    and the stage Initializing, the error is cleared, and one source is
    constructed, for that task id and the trimmed script, which becomes the
    only open one and the one in [eventSourceRef]; if the task id is the
    empty string the click does nothing at all. *)
Theorem generate_click (events : list Event) :
  let w := run events mounted in
  offered ClickGenerate w = true ->
  let w' := step ClickGenerate w in
  exists task,
    taskId w = Some task
    /\ if truthy task then
         state w' = Generating /\ progress w' = 0%Q
         /\ generationStage w' = js "Initializing" /\ error w' = None
         /\ sources w'
            = sources w ++ [{| es_task_id := task; es_text := trim (scriptText w);
                               es_closed := false |}]
         /\ eventSourceRef w' = Some (length (sources w))
         /\ openSources w' = [length (sources w)]
         /\ scriptText w' = scriptText w /\ taskId w' = taskId w
       else w' = w.
Proof.
  intros w Hoff w'. subst w'. reachable events w HI HD HS.
  unfold step. rewrite Hoff.
  simpl in Hoff. apply andb_prop in Hoff as [Hoff Hm]. apply andb_prop in Hoff as [Hoff Htr].
  destruct HD as [HD1 HD2].
  world w. unfold Inv, quiet, openSources, handler, handleGenerateVoice in *.
  simpl in *. rewrite Htr.
  destruct s; try discriminate; simpl in *.
  { rewrite (HD1 eq_refl) in Htr. discriminate. }
  destruct HI as ((_ & _ & _ & Hno) & Hti & _).
  destruct ti as [task|]; [|done]. exists task. split; [done|].
  destruct (truthy task); simpl; [|unfold scriptEffect; simpl; by rewrite Htr].
  rewrite openFrom_app, Hno. by simpl.
Qed.

Lemma generate_click_witness :
  let w := run (upload_succeeds ++ [TimerFires 0; HealthSettled model_is_loaded;
                                    ChangeScript (js " [S1] Hello ")]) mounted in
  let w' := step ClickGenerate w in
  state w' = Generating
  /\ sources w' = [{| es_task_id := js "abc123"; es_text := js "[S1] Hello";
                      es_closed := false |}].
Proof.
  pose proof (generate_click
                (upload_succeeds ++ [TimerFires 0; HealthSettled model_is_loaded;
                                     ChangeScript (js " [S1] Hello ")]) eq_refl)
    as (task & Ht & H).
  injection Ht as <-.
  exact (conj (proj1 H) (proj1 (proj2 (proj2 (proj2 (proj2 H)))))).
Defined.

(** The empty task id in a run: Generate is there and enabled, and a click
    on it changes nothing. *)
Example generate_without_task_id :
  let w := run [SelectFile sample_wav; ClickProcess;
                UploadSettled (Resolved (UploadOk (Returns unnamed_task)));
                TimerFires 0; HealthSettled model_is_loaded;
                ChangeScript (js "[S1] Hello")] mounted in
  state w = ScriptUploaded /\ offered ClickGenerate w = true
  /\ step ClickGenerate w = w.
Proof. by vm_compute. Qed.

(** ** The speaker tags *)

Lemma endsWith_snoc s c : endsWith (s ++ [c]) c = true.
Proof. unfold endsWith. rewrite last_snoc. apply N.eqb_refl. Qed.

(** What [insertTag] makes of the script: the text as it was, a space if it
    does not end with a space or a line feed already, the tag, a space. *)
Lemma insertTag_scriptText tag w :
  exists sep,
    (sep = js "" \/ sep = js " ")
    /\ (scriptText w = js "" -> sep = js "")
    /\ (endsWith (scriptText w) 32 = true -> sep = js "")
    /\ scriptText (insertTag tag w) = scriptText w ++ sep ++ tag ++ js " ".
Proof.
  world w. unfold insertTag. simpl.
  exists (if (0 <? length st)%nat && negb (endsWith st 32) && negb (endsWith st 10)
          then js " " else js "").
  split; [destruct (_ && _); auto|]. split; [by intros ->|].
  split; [intros ->; simpl; by rewrite andb_false_r|].
  by destruct (truthy (trim st) && _).
Qed.

(** X14.  A speaker-tag button, in processed or script-uploaded: the script
    becomes what it was, at most one space, the tag and a space, and the
    state script-uploaded; on an empty script no space comes first; a second
    button right after appends its tag and a space and nothing else. *)
Theorem tag_buttons (w : World) (t t' : SpeakerTag) :
  inState [Processed; ScriptUploaded] w = true ->
  let w1 := step (ClickTag t) w in
  let w2 := step (ClickTag t') w1 in
  state w1 = ScriptUploaded
  /\ (exists sep, (sep = js "" \/ sep = js " ")
                  /\ (scriptText w = js "" -> sep = js "")
                  /\ scriptText w1 = scriptText w ++ sep ++ tagText t ++ js " ")
  /\ endsWith (scriptText w1) 32 = true
  /\ state w2 = ScriptUploaded
  /\ scriptText w2 = scriptText w1 ++ tagText t' ++ js " ".
Proof.
  intros Hst w1 w2.
  assert (state w1 = ScriptUploaded) as Hst1 by (by apply tag_makes_script).
  assert (inState [Processed; ScriptUploaded] w1 = true) as Hin1.
  { unfold inState. by rewrite Hst1. }
  assert (forall w0 t0, inState [Processed; ScriptUploaded] w0 = true ->
            scriptText (step (ClickTag t0) w0)
            = scriptText (insertTag (tagText t0) w0)) as Htext.
  { intros w0 t0 H0. unfold step, offered. by rewrite H0, scriptEffect_scriptText. }
  destruct (insertTag_scriptText (tagText t) w) as (sep & Hsep & Hempty & _ & Hw1).
  rewrite <- Htext in Hw1 by done. fold w1 in Hw1.
  assert (endsWith (scriptText w1) 32 = true) as Hends.
  { rewrite Hw1, !app_assoc. apply endsWith_snoc. }
  split; [done|]. split; [by exists sep|]. split; [done|].
  split; [by apply tag_makes_script|].
  destruct (insertTag_scriptText (tagText t') w1) as (sep' & _ & _ & Hnone & Hw2).
  rewrite <- Htext in Hw2 by done. fold w2 in Hw2.
  by rewrite Hw2, (Hnone Hends).
Qed.

Lemma tag_buttons_witness :
  let w := run (upload_succeeds ++ [TimerFires 0]) mounted in
  let w2 := step (ClickTag S2) (step (ClickTag S1) w) in
  state w2 = ScriptUploaded
  /\ scriptText w2 = scriptText (step (ClickTag S1) w) ++ js "[S2] "
  /\ scriptText w2 = js "[S1] [S2] ".
Proof.
  pose proof (tag_buttons (run (upload_succeeds ++ [TimerFires 0]) mounted) S1 S2
                eq_refl) as (_ & _ & _ & H1 & H2).
  exact (conj H1 (conj H2 eq_refl)).
Defined.

(** ** The health poll and the session *)

(** Where the state is the one the script calls for, the effect has nothing
    to do. *)
Lemma scriptEffect_settled w : Derived w -> scriptEffect w = w.
Proof.
  intros [H1 H2]. world w. unfold scriptEffect. simpl in *.
  destruct s; simpl; try done.
  - by rewrite H1.
  - destruct (trim st) eqn:Ht; [by destruct H2|done].
Qed.

(** X15.  A health response, of whatever kind, and the end of a sleep leave
    the session as it is: state, file, script, progress, stage, playback,
    task, metadata, sources, timeouts and upload; the only cell they share
    with the session is the error, which a response saying that the model
    failed overwrites. *)
Theorem health_leaves_session (events : list Event) (e : Event) :
  let w := run events mounted in
  (exists f, e = HealthSettled f) \/ e = PollTimeout ->
  let w' := step e w in
  state w' = state w /\ audioFile w' = audioFile w
  /\ scriptText w' = scriptText w /\ progress w' = progress w
  /\ generationStage w' = generationStage w /\ isPlaying w' = isPlaying w
  /\ taskId w' = taskId w /\ audioMetadata w' = audioMetadata w
  /\ outputMetadata w' = outputMetadata w /\ eventSourceRef w' = eventSourceRef w
  /\ sources w' = sources w /\ timers w' = timers w /\ upload w' = upload w
  /\ (error w' = error w
      \/ exists h, e = HealthSettled (Resolved {| health_ok := true;
                                                   health_json := Returns h |})
                   /\ model_loaded h = false /\ model_status h = js "failed"
                   /\ error w' = Some (js "Model failed to load: "
                                       ++ default (js "unknown error") (model_error h))).
Proof.
  intros w He w'. subst w'. reachable events w HI HD HS. clear HI HS.
  unfold step. destruct (offered e w) eqn:Hoff; [|by repeat split; auto].
  assert (Derived (handler e w)) as HD'.
  { destruct He as [[f ->] | ->]; world w; unfold Derived in *; simpl in *; [|done].
    unfold pollIteration.
    destruct (checkHealth f) as [h|]; simpl;
      [destruct (model_loaded h);
        [|destruct (bool_decide (model_status h = js "failed"))]|]; done. }
  rewrite scriptEffect_settled by done. clear HD HD' Hoff.
  destruct He as [[f ->] | ->]; world w; simpl; [|by repeat split; auto].
  unfold pollIteration.
  destruct f as [err|[ok [h|err]]]; simpl; try (by repeat split; auto).
  - destruct ok; simpl; [|by repeat split; auto].
    destruct (model_loaded h) eqn:Hl; simpl; [by repeat split; auto|].
    destruct (bool_decide (model_status h = js "failed")) eqn:Hf; simpl;
      [|by repeat split; auto].
    apply bool_decide_eq_true in Hf. repeat split; try done.
    right. by exists h.
  - destruct ok; simpl; by repeat split; auto.
Qed.

Lemma health_leaves_session_witness :
  let w := run (upload_succeeds ++ [TimerFires 0; ChangeScript (js "[S1] Hello")])
             mounted in
  let w' := step (HealthSettled model_has_failed) w in
  state w' = ScriptUploaded /\ scriptText w' = js "[S1] Hello"
  /\ taskId w' = Some (js "abc123").
Proof.
  pose proof (health_leaves_session
                (upload_succeeds ++ [TimerFires 0; ChangeScript (js "[S1] Hello")])
                (HealthSettled model_has_failed)
                (or_introl (ex_intro _ model_has_failed eq_refl)))
    as (H1 & _ & H2 & _ & _ & _ & H3 & _).
  exact (conj H1 (conj H2 H3)).
Defined.

(** ** The output and the request it answers *)

Lemma last_alter_close i l es :
  last l = Some es ->
  exists es', last (alter close i l) = Some es'
              /\ es_task_id es' = es_task_id es /\ es_text es' = es_text es.
Proof.
  rewrite !last_lookup, length_alter. intros H.
  destruct (decide (i = pred (length l))) as [->|Hne].
  - exists (close es). by rewrite list_lookup_alter, decide_True, H.
  - exists es. by rewrite list_lookup_alter, decide_False.
Qed.

Lemma scriptEffect_Generated w : Generated w -> Generated (scriptEffect w).
Proof.
  world w. unfold Generated, scriptEffect. simpl.
  destruct s; simpl; try done; by destruct (truthy (trim st)).
Qed.

Ltac generated :=
  try done;
  try match goal with
      | H : last _ = Some _ |- _ =>
          first [ by eauto
                | by (eapply last_alter_close in H as (? & ? & ? & ?);
                      eexists; split; [eassumption|split; congruence]) ]
      end.

Lemma handler_Generated e w :
  offered e w = true -> Inv w -> Generated w -> Generated (handler e w).
Proof.
  intros Hoff HI HG. world w. unfold Inv, quiet, Generated, openSources in *.
  destruct e; simpl in *.
  - by_state s; generated.
  - by_state s; generated.
  - unfold handleProcessAudio. simpl. destruct af as [file|]; by_state s; generated.
  - destruct (uploadAudio f) as [data|err]; by_state s; generated.
  - destruct (tm !! i) as [t|] eqn:Ht; [|done].
    by_state s; destruct i; simpl in *; simplify_eq; simpl; generated.
  - by_state s; generated.
  - unfold insertTag; simpl. destruct (truthy (trim st) && _); by_state s; generated.
  - apply andb_prop in Hoff as [Hoff Hm]. apply andb_prop in Hoff as [Hoff Htr].
    unfold handleGenerateVoice. simpl. destruct ti as [task|]; [|by by_state s].
    rewrite Htr, andb_true_r. destruct (truthy task); [|done]. simpl.
    eexists. by rewrite last_snoc.
  - destruct parsed; by_state s; generated.
  - destruct parsed; by_state s; generated.
  - by_state s; generated.
  - by_state s; generated.
  - by_state s; generated.
  - by_state s; generated.
  - unfold handleReset. by_state s; generated.
  - unfold pollIteration. clear Hoff.
    destruct (checkHealth f) as [h|]; simpl;
      [destruct (model_loaded h);
        [|destruct (bool_decide (model_status h = js "failed"))]|];
      by_state s; generated.
  - clear Hoff. by_state s; generated.
Qed.

Lemma reachable_Generated events : Generated (run events mounted).
Proof.
  assert (forall w, Inv w -> Generated w -> Generated (run events w)) as H.
  { induction events as [|e events IH]; intros w HI HG; [done|].
    simpl. apply IH; [by apply step_Inv|].
    unfold step. destruct (offered e w) eqn:Hoff; [|done].
    by apply scriptEffect_Generated, handler_Generated. }
  apply H; [apply mounted_Inv|done].
Qed.

(** X16.  In complete, Download always makes its link: a task id is stored
    and it is not empty, the one of the stored upload response, for which
    the last source was opened, with the script that is still there,
    trimmed; the link goes to the download of that task and names the file
    after it. *)
Theorem download_link (API_URL : JSString) (events : list Event) :
  let w := run events mounted in
  offered ClickDownload w = true ->
  exists es data,
    last (sources w) = Some es /\ audioMetadata w = Some data
    /\ es_task_id es = task_id data /\ es_text es = trim (scriptText w)
    /\ truthy (task_id data) = true
    /\ downloadLink API_URL w
       = Some {| href := API_URL ++ js "/api/download/" ++ task_id data;
                 download := js "voxsynth-" ++ task_id data ++ js ".wav" |}
    /\ step ClickDownload w = w.
Proof.
  intros w Hoff.
  pose proof (reachable_requests events) as HR.
  pose proof (reachable_Generated events) as HG. fold w in HR, HG.
  reachable events w HI HD HS.
  assert (state w = Complete) as Hst.
  { world w. simpl in *. by destruct s. }
  unfold step. rewrite Hoff. unfold Generated in HG. rewrite Hst in HG.
  destruct HG as (es & Hlast & Hti & Htext).
  destruct HS as (Ham & _). rewrite Hti in Ham.
  destruct (audioMetadata w) as [data|] eqn:Hdata; [|done].
  injection Ham as Ham. exists es, data.
  rewrite last_lookup in Hlast. rewrite Forall_lookup in HR.
  destruct (HR _ _ Hlast) as [Htask _]. rewrite Ham in Htask.
  rewrite last_lookup. repeat split; try done.
  - unfold downloadLink, getDownloadUrl. by rewrite Hti, Ham, Htask.
  - apply scriptEffect_settled. by world w.
Qed.

Lemma download_link_witness :
  let w := run (generation_starts ++ [SourceComplete 0 (Some finished); TimerFires 0])
             mounted in
  exists es data,
    last (sources w) = Some es /\ audioMetadata w = Some data
    /\ es_task_id es = task_id data /\ es_text es = trim (scriptText w)
    /\ truthy (task_id data) = true
    /\ downloadLink (js "http://localhost:8000") w
       = Some {| href := js "http://localhost:8000" ++ js "/api/download/" ++ task_id data;
                 download := js "voxsynth-" ++ task_id data ++ js ".wav" |}
    /\ step ClickDownload w = w.
Proof.
  exact (download_link (js "http://localhost:8000")
           (generation_starts ++ [SourceComplete 0 (Some finished); TimerFires 0])
           eq_refl).
Defined.

(** ** The view *)

(** X17.  In every state exactly one of the five panels is rendered, the one
    that [currentStep] counts; [currentStep] is the number of steps only in
    complete; the status texts of two states differ; and the indicator shows
    a check mark on the steps before the current one and the numbers 01 to
    04 on the others. *)
Theorem view_by_state (s : EngineState) :
  List.filter (fun p => rendered p s) panels = [List.nth (currentStep s) panels CompletePanel]
  /\ (currentStep s <= length STEPS)%nat
  /\ (currentStep s = length STEPS <-> s = Complete)
  /\ (forall s', getStatusText s = getStatusText s' -> s = s')
  /\ sv_circle <$> StepIndicator STEPS (currentStep s)
     = replicate (currentStep s) CheckIcon
       ++ drop (currentStep s)
            [Number (js "01"); Number (js "02"); Number (js "03"); Number (js "04")].
Proof.
  split; [by destruct s|]. split; [destruct s; unfold currentStep; simpl; lia|].
  split; [by destruct s|]. split; [|by destruct s; vm_compute].
  intros s'. destruct s, s'; done.
Qed.

Lemma edge_one_step s s' :
  edge s s' = true -> (currentStep s' <= S (currentStep s))%nat.
Proof. destruct s, s'; try discriminate; unfold currentStep; simpl; lia. Qed.

(** X18.  The indicator never skips a step: over any event the current step
    stays, goes one forward, or goes back. *)
Theorem indicator_one_step (events : list Event) (e : Event) :
  let w := run events mounted in
  (currentStep (state (step e w)) <= S (currentStep (state w)))%nat.
Proof.
  intros w.
  destruct (step_moves e w (reachable_Inv events) (reachable_Derived events)
              (reachable_Stored events)) as [-> | He]; [lia|].
  by apply edge_one_step.
Qed.

(** ** The step indicator *)

Lemma two_digits i :
  (i < 9)%nat -> padStart 2 48 (ToStringN (N.of_nat (i + 1))) = [48; 49 + N.of_nat i].
Proof.
  intros Hi. rewrite ToStringN_digit by lia. unfold padStart. simpl.
  f_equal. f_equal. lia.
Qed.

(** X19.  [StepIndicator], for any steps and any current step: the names are
    those given, in order; a step has a check mark exactly when it is before
    the current one, and otherwise its number, of two digits up to the
    ninth; exactly the current step pulses; the name is lit exactly when the
    step is not ahead; every step but the last has a line to the next, lit
    exactly when the step has its check mark. *)
Theorem StepIndicator_marks (steps : list JSString) (c : nat) :
  let view := StepIndicator steps c in
  sv_name <$> view = steps
  /\ forall i sv, view !! i = Some sv ->
       (sv_circle sv = CheckIcon <-> (i < c)%nat)
       /\ ((i < 9)%nat -> (c <= i)%nat ->
           sv_circle sv = Number [48; 49 + N.of_nat i])
       /\ (sv_tone sv = Done <-> sv_circle sv = CheckIcon)
       /\ (sv_tone sv = Current <-> i = c)
       /\ (sv_lit sv = true <-> sv_tone sv <> Ahead)
       /\ (sv_connector sv = None <-> S i = length steps)
       /\ (forall lit, sv_connector sv = Some lit ->
             (lit = true <-> sv_circle sv = CheckIcon)).
Proof.
  intros view. split.
  - unfold view, StepIndicator. apply list_eq. intros i.
    rewrite list_lookup_fmap, list_lookup_imap. by destruct (steps !! i).
  - intros i sv Hi. unfold view, StepIndicator in Hi.
    rewrite list_lookup_imap in Hi.
    destruct (steps !! i) as [step|] eqn:Hstep; [|done].
    apply lookup_lt_Some in Hstep. injection Hi as <-. simpl.
    destruct (Nat.ltb_spec i c), (Nat.eqb_spec i c), (Nat.leb_spec i c),
      (Nat.ltb_spec i (length steps - 1)); try lia;
      repeat split; try done; try lia; try (intros; simplify_eq; done);
      try (intros; f_equal; by apply two_digits).
Qed.

(** ** More of the formatting *)

(** The point goes before the last digit: with one fraction digit, [toFixed]
    prints the tenths as their quotient by ten, a point, and their rest. *)
Lemma point_before_last t :
  let m := padStart 2 48 (ToStringN t) in
  take (length m - 1) m ++ js "." ++ drop (length m - 1) m
  = ToStringN (t / 10) ++ js "." ++ ToStringN (t mod 10).
Proof.
  destruct (N.lt_ge_cases t 10) as [Ht|Ht].
  - rewrite (N.div_small t 10), (N.mod_small t 10) by done.
    by rewrite !ToStringN_digit by lia.
  - rewrite (ToStringN_step t), (ToStringN_digit (t mod 10))
      by (done || by apply N.mod_lt).
    pose proof (ToStringN_length (t / 10)) as Hlen.
    unfold padStart. rewrite !length_app. simpl length.
    replace (2 - (length (ToStringN (t / 10)) + 1))%nat with 0%nat by lia.
    simpl replicate. rewrite !app_nil_l. simpl length.
    replace (0 + (length (ToStringN (t / 10)) + 1) - 1)%nat
      with (length (ToStringN (t / 10))) by lia.
    by rewrite take_app_length, drop_app_length.
Qed.

(** A byte count over 1024, rounded to tenths, the half up. *)
Lemma tenths_of_kilobytes bytes :
  Z.to_N (Qfloor (Qabs (Z.of_N bytes # 1024) * inject_Z (10 ^ Z.of_nat 1) + (1 # 2)))
  = (10 * bytes + 512) / 1024.
Proof.
  unfold Qabs, Qmult, Qplus, Qfloor, inject_Z, Qnum, Qden.
  rewrite Z.abs_eq by lia.
  change (10 ^ Z.of_nat 1)%Z with 10%Z.
  change (Z.pos (1024 * 1 * 2)) with (2 * 1024)%Z.
  change (Z.pos (1024 * 1)) with 1024%Z.
  replace (Z.of_N bytes * 10 * 2 + 1 * 1024)%Z
    with (2 * Z.of_N (10 * bytes + 512))%Z by lia.
  rewrite Z.div_mul_cancel_l by lia.
  change 1024%Z with (Z.of_N 1024).
  by rewrite <- N2Z.inj_div, N2Z.id.
Qed.

(** A byte count in units of 1024 bytes with one decimal, as both
    [formatFileSize] and the upload zone print it. *)
Lemma kilobytes_toFixed bytes :
  toFixed (Z.of_N bytes # 1024) 1
  = ToStringN ((10 * bytes + 512) / 1024 / 10) ++ js "."
    ++ ToStringN (((10 * bytes + 512) / 1024) mod 10).
Proof.
  unfold toFixed. rewrite tenths_of_kilobytes.
  destruct (Qlt_le_dec _ 0) as [Hneg|_].
  { unfold Qlt in Hneg. simpl in Hneg. lia. }
  rewrite app_nil_l. apply point_before_last.
Qed.

(** X20.  For a byte count from 1024 up to 1048575 the result is the count
    in units of 1024 bytes rounded to one decimal, followed by " KB"; the
    rounding takes the last 51 counts of the range to "1024.0 KB". *)
Theorem formatFileSize_kilobytes (bytes : N) :
  1024 <= bytes -> bytes < 1048576 ->
  let tenths := (10 * bytes + 512) / 1024 in
  formatFileSize bytes
  = ToStringN (tenths / 10) ++ js "." ++ ToStringN (tenths mod 10) ++ js " KB"
  /\ 10 <= tenths <= 10240
  /\ (1048525 <= bytes -> formatFileSize bytes = js "1024.0 KB").
Proof.
  intros Hlo Hhi tenths.
  assert (formatFileSize bytes
          = ToStringN (tenths / 10) ++ js "." ++ ToStringN (tenths mod 10) ++ js " KB")
    as Hfmt.
  { unfold formatFileSize.
    assert ((bytes <? 1024) = false) as -> by (apply N.ltb_ge; lia).
    assert ((bytes <? 1024 * 1024) = true) as -> by (apply N.ltb_lt; lia).
    rewrite kilobytes_toFixed. fold tenths. by rewrite <- !app_assoc. }
  assert (10 <= tenths <= 10240) as Hrange.
  { unfold tenths. split.
    - apply N.div_le_lower_bound; lia.
    - apply N.lt_succ_r, N.Div0.div_lt_upper_bound. lia. }
  split; [done|]. split; [done|].
  intros Hb. rewrite Hfmt.
  assert (tenths = 10240) as ->; [|by vm_compute].
  unfold tenths. apply N.le_antisymm; [lia|].
  apply N.div_le_lower_bound; lia.
Qed.

Lemma formatFileSize_kilobytes_witness :
  formatFileSize 1048575 = js "1024.0 KB"
  /\ formatFileSize 1536
     = ToStringN 1 ++ js "." ++ ToStringN 5 ++ js " KB".
Proof.
  split.
  - exact (proj2 (proj2 (formatFileSize_kilobytes 1048575
                           ltac:(by vm_compute) ltac:(by vm_compute)))
             ltac:(by vm_compute)).
  - exact (proj1 (formatFileSize_kilobytes 1536
                    ltac:(by vm_compute) ltac:(by vm_compute))).
Defined.

(** ** The size under the file name *)

(** X21.  The upload zone prints the size of the selected file in units of
    1024 bytes with one decimal, whatever the size; that is what
    [formatFileSize] makes of it exactly when the size is from 1024 up to
    1048575 bytes. *)
Theorem sizeLabel_and_formatFileSize (f : File) :
  file_size f <= MAX_SAFE_INTEGER ->
  let tenths := (10 * file_size f + 512) / 1024 in
  sizeLabel f
  = ToStringN (tenths / 10) ++ js "." ++ ToStringN (tenths mod 10) ++ js " KB"
  /\ (sizeLabel f = formatFileSize (file_size f)
      <-> 1024 <= file_size f < 1048576).
Proof.
  intros _ tenths. unfold sizeLabel. split.
  { rewrite kilobytes_toFixed. fold tenths. by rewrite <- !app_assoc. }
  unfold formatFileSize.
  change (js " KB") with [32; 75; 66]. change (js " B") with [32; 66].
  change (js " MB") with [32; 77; 66].
  destruct (N.ltb_spec (file_size f) 1024) as [H1|H1].
  - split; [|lia]. intros Heq. exfalso.
    change [32; 75; 66] with ([32] ++ [75; 66]) in Heq.
    rewrite app_assoc in Heq. by apply app_inj_2 in Heq as [_ Heq].
  - destruct (N.ltb_spec (file_size f) (1024 * 1024)) as [H2|H2].
    + split; [lia|done].
    + split; [|lia]. intros Heq. exfalso.
      by apply app_inj_2 in Heq as [_ Heq].
Qed.

Lemma sizeLabel_and_formatFileSize_witness :
  sizeLabel {| file_name := js "beep.wav"; file_size := 500 |}
  = ToStringN 0 ++ js "." ++ ToStringN 5 ++ js " KB"
  /\ formatFileSize 500 = js "500 B".
Proof.
  split; [|done].
  exact (proj1 (sizeLabel_and_formatFileSize
                  {| file_name := js "beep.wav"; file_size := 500 |}
                  ltac:(by vm_compute))).
Defined.

(** ** Whole seconds *)

Lemma seconds_toFixed r :
  r < 60 ->
  padStart 5 48 (toFixed (Z.of_N r # 1) 2) = [48 + r / 10; 48 + r mod 10] ++ js ".00".
Proof.
  intros Hr.
  assert (forallb (fun r => bool_decide
                      (padStart 5 48 (toFixed (Z.of_N r # 1) 2)
                       = [48 + r / 10; 48 + r mod 10] ++ js ".00"))
                  (N.of_nat <$> seq 0 60) = true) as Hall by (by vm_compute).
  rewrite forallb_forall in Hall. specialize (Hall r).
  rewrite bool_decide_eq_true in Hall. apply Hall.
  apply list_elem_of_In, list_elem_of_fmap. exists (N.to_nat r).
  split; [lia|]. apply elem_of_seq. lia.
Qed.

(** X22.  A whole number of seconds is printed as the minutes, on two digits
    at least, a colon, the seconds that are left on two digits, and ".00s";
    the minutes are not taken to hours, so that an hour is "60:00.00s". *)
Theorem formatDuration_whole_seconds (n : N) :
  n <= MAX_SAFE_INTEGER ->
  formatDuration (inject_Z (Z.of_N n))
  = padStart 2 48 (ToStringN (n / 60)) ++ js ":"
    ++ [48 + (n mod 60) / 10; 48 + (n mod 60) mod 10] ++ js ".00s".
Proof.
  intros _. unfold formatDuration.
  assert (Qfloor (inject_Z (Z.of_N n) / inject_Z 60) = Z.of_N (n / 60)) as ->.
  { unfold Qfloor, Qdiv, Qmult, Qinv, inject_Z. simpl.
    by rewrite Z.mul_1_r, N2Z.inj_div. }
  assert (ToStringZ (Z.of_N (n / 60)) = ToStringN (n / 60)) as ->.
  { unfold ToStringZ. destruct (Z.of_N (n / 60)) eqn:H; try (by rewrite <- H, N2Z.id).
    pose proof (N2Z.is_nonneg (n / 60)) as Hn. rewrite H in Hn. by contradiction Hn. }
  assert ((inject_Z (Z.of_N n) - inject_Z (Z.of_N (n / 60)) * inject_Z 60)%Q
          = Z.of_N (n mod 60) # 1) as ->.
  { unfold Qminus, Qplus, Qopp, Qmult, inject_Z. simpl. f_equal.
    rewrite N2Z.inj_mod, N2Z.inj_div. change (Z.of_N 60) with 60%Z.
    pose proof (Z.div_mod (Z.of_N n) 60 ltac:(lia)). lia. }
  rewrite seconds_toFixed by (apply N.mod_lt; lia).
  by rewrite <- !app_assoc.
Qed.

Lemma formatDuration_whole_seconds_witness :
  formatDuration (inject_Z (Z.of_N 3600))
  = padStart 2 48 (ToStringN 60) ++ js ":" ++ [48 + 0; 48 + 0] ++ js ".00s"
  /\ padStart 2 48 (ToStringN 60) ++ js ":" ++ [48 + 0; 48 + 0] ++ js ".00s"
     = js "60:00.00s".
Proof.
  split; [|by vm_compute].
  exact (formatDuration_whole_seconds 3600 ltac:(by vm_compute)).
Defined.

(** ** Failures and what is shown of them *)

Lemma errorMessage_truthy e : truthy (errorMessage e) = true.
Proof.
  destruct e as [| |[[[m|]]|]]; try done. simpl.
  by destruct (truthy m) eqn:Hm.
Qed.


(** ** Progress events *)

(** X24.  A progress event on the open source leaves the state generating
    and the source open; if it parses, the progress and the stage are those
    it carries, and the stage shown is that stage, or Initializing when it
    is the empty string; if it does not parse, nothing changes. *)
Theorem progress_event (events : list Event) (i : nat) (parsed : option ProgressEvent) :
  let w := run events mounted in
  isOpen i w = true ->
  let w' := step (SourceProgress i parsed) w in
  state w' = Generating /\ openSources w' = [i] /\ eventSourceRef w' = Some i
  /\ match parsed with
     | Some data =>
         progress w' = pe_progress data /\ generationStage w' = pe_stage data
         /\ stageShown w'
            = (if truthy (pe_stage data) then pe_stage data else js "Initializing")
     | None => w' = w
     end.
Proof.
  intros w Hopen w'. subst w'. reachable events w HI HD HS. clear HS HD.
  unfold step. simpl offered. rewrite Hopen.
  apply isOpen_openSources in Hopen. unfold openSources in Hopen.
  world w. unfold Inv, quiet, openSources, stageShown in *. simpl in *.
  by_state s; the_open_source Hopen.
  destruct parsed as [data|]; simpl; [|done].
  by destruct (pe_stage data).
Qed.

Lemma progress_event_witness :
  let p := {| pe_status := js "running"; pe_progress := 42; pe_stage := js "" |} in
  let w' := step (SourceProgress 0 (Some p)) (run generation_starts mounted) in
  state w' = Generating /\ progress w' = 42%Q /\ stageShown w' = js "Initializing".
Proof.
  pose proof (progress_event generation_starts 0
                (Some {| pe_status := js "running"; pe_progress := 42;
                         pe_stage := js "" |}) eq_refl)
    as (H1 & _ & _ & H2 & _ & H3).
  exact (conj H1 (conj H2 H3)).
Defined.

(** ** Timeouts and unmounting *)

(** X25.  At most one timeout is pending at any time: the one of 400 ms to
    processed, in processing, or the one of 600 ms to complete, in
    generating; while it is pending no upload is in flight and no source is
    open. *)
Theorem one_pending_timeout (events : list Event) :
  let w := run events mounted in
  timers w = []
  \/ (upload w = None /\ openSources w = []
      /\ ((state w = Processing
           /\ timers w = [{| timer_ms := 400; timer_state := Processed |}])
          \/ (state w = Generating
              /\ timers w = [{| timer_ms := 600; timer_state := Complete |}]))).
Proof.
  intros w. reachable events w HI HD HS. clear HD HS.
  world w. unfold Inv, quiet in *. simpl in *.
  by_state s; auto; right; auto 10.
Qed.

(** X26.  When the component unmounts, in whatever state, no source is left
    open. *)
Theorem unmount_closes_source (events : list Event) :
  openSources (unmountCleanup (run events mounted)) = [].
Proof.
  pose proof (reachable_Inv events) as HI.
  generalize dependent (run events mounted). intros w HI.
  world w. unfold Inv, quiet, openSources, unmountCleanup in *. simpl in *.
  by_state s; try done.
  by apply openFrom_close_only.
Qed.

(** An upload that fails without a message: back to audio-uploaded, and no
    banner. *)
Example upload_fails_silently :
  let w := run [SelectFile sample_wav; ClickProcess;
                UploadSettled
                  (Resolved (UploadNotOk 422
                               (Some (JObject [(js "detail", JString (js ""))]))
                               v8_null_detail))]
             mounted in
  state w = AudioUploaded /\ error w = Some (js "")
  /\ offered DismissError w = false.
Proof. by vm_compute. Qed.

(** ** The script panel without a model *)

(** In processed and script-uploaded nothing is under way, and without the
    model no event leads out of them. *)
Lemma step_script_panel e w :
  Inv w -> modelReady w = false ->
  inState [Processed; ScriptUploaded] w = true ->
  inState [Processed; ScriptUploaded] (step e w) = true
  /\ audioFile (step e w) = audioFile w /\ taskId (step e w) = taskId w
  /\ audioMetadata (step e w) = audioMetadata w.
Proof.
  intros HI Hm Hst. unfold step. destruct (offered e w) eqn:Hoff; [|done].
  assert (forall i, isOpen i w = false) as Hclosed.
  { intros i. apply none_open. world w. unfold Inv, quiet in HI. simpl in *.
    by_state s; done. }
  destruct e; simpl in Hoff; rewrite ?Hclosed, ?Hm, ?andb_false_r in Hoff;
    try discriminate;
    world w; unfold Inv, quiet, scriptEffect in *; simpl in *.
  - by_state s; done.
  - by_state s; done.
  - by_state s; done.
  - by_state s; done.
  - by_state s; done.
  - by_state s; by destruct (truthy (trim value)).
  - unfold insertTag. simpl.
    by_state s; repeat (destruct (truthy (trim _)); simpl; try done).
  - by_state s; by destruct (truthy (trim st)).
  - by_state s; done.
  - by_state s; done.
  - by_state s; done.
  - unfold pollIteration.
    destruct (checkHealth f) as [h|]; simpl;
      [destruct (model_loaded h);
        [|destruct (bool_decide (model_status h = js "failed"))]|];
      simpl; by_state s; by destruct (truthy (trim st)).
  - by_state s; by destruct (truthy (trim st)).
Qed.

(** X27.  Once a sample is processed and the poll loop has returned without
    the model being ready, the component stays in processed and
    script-uploaded whatever happens: the script can be edited, but no
    other file can be chosen, nothing can be generated and nothing reset. *)
Theorem script_panel_without_model (events later : list Event) :
  let w := run events mounted in
  poller w = Stopped -> modelReady w = false ->
  inState [Processed; ScriptUploaded] w = true ->
  let w' := run later w in
  inState [Processed; ScriptUploaded] w' = true
  /\ audioFile w' = audioFile w /\ taskId w' = taskId w
  /\ audioMetadata w' = audioMetadata w
  /\ (forall file, offered (SelectFile file) w' = false)
  /\ offered ClickGenerate w' = false /\ offered ClickReset w' = false.
Proof.
  intros w Hp Hm Hst w'.
  pose proof (reachable_Inv events : Inv w) as HI. clearbody w. subst w'.
  revert w Hp Hm Hst HI.
  induction later as [|e later IH]; intros w Hp Hm Hst HI.
  - simpl. repeat split; try done.
    + intros file. world w. simpl in *. by destruct s.
    + unfold offered. by rewrite Hm, andb_false_r.
    + world w. simpl in *. by destruct s.
  - simpl.
    destruct (step_stopped e w Hp) as (Hp' & Hm' & _).
    rewrite Hm in Hm'.
    destruct (step_script_panel e w HI Hm Hst) as (Hst' & E1 & E2 & E3).
    destruct (IH (step e w) Hp' Hm' Hst' (step_Inv e w HI))
      as (H1 & H2 & H3 & H4 & H5).
    rewrite H2, H3, H4, E1, E2, E3. by split.
Qed.

Lemma script_panel_without_model_witness :
  let w' := run ([HealthSettled model_has_failed] ++ upload_succeeds
                 ++ [TimerFires 0; ChangeScript (js "[S1] Hello");
                     ClickGenerate; ClickReset; SelectFile sample_wav]) mounted in
  inState [Processed; ScriptUploaded] w' = true
  /\ audioFile w' = Some sample_wav /\ taskId w' = Some (js "abc123").
Proof.
  pose proof (script_panel_without_model
                ([HealthSettled model_has_failed] ++ upload_succeeds ++ [TimerFires 0])
                [ChangeScript (js "[S1] Hello"); ClickGenerate; ClickReset;
                 SelectFile sample_wav]
                eq_refl eq_refl eq_refl) as (H1 & H2 & H3 & _).
  exact (conj H1 (conj H2 H3)).
Defined.
